(** * Memory game server: room, turn and match coordination

    A shallow embedding of [server.js] (the [GameState] class and the
    Socket.IO handlers) together with the properties of the room engine.

    Modelling conventions.
    - JavaScript objects that are shared by reference (rooms, cards) live in
      two object stores, [roomObjs] and [cardObjs]; a reference is the index
      of the object in its store.  [room.gameBoard], [room.flippedCards] and
      the variables captured by a [setTimeout] callback hold card references.
    - [gameState.rooms] and [gameState.players] are finite maps keyed by
      strings.  [room.scores] is a plain object used as a map whose key order
      (insertion order) is observable through [Object.keys]; it is an
      association list.
    - Numbers stored in [currentPlayer] and in the score table are either
      non-negative integers or [NaN] (from [x % 0] and [undefined++]).
    - [Date.now()] and [Math.random()] are inputs carried by the event that
      triggers the handler.
    - Strings are sequences of bytes, the UTF-8 encoding of the JavaScript
      string; [replace] and [trim] of [join-room] act on that encoding.
    - Every message passed to [emit] is recorded, with its addressee, in the
      list of outputs of the handler. *)

From Stdlib Require Import ZArith Ascii String.
From stdpp Require Import base option list gmap strings.

Local Open Scope string_scope.
Local Open Scope nat_scope.
Local Open Scope list_scope.

(** ** Data model *)

(** A number as stored by the server in an index or a score. *)
Inductive jsnum : Type :=
  | Num (n : nat)
  | NaN.

#[global] Instance jsnum_eq_dec : EqDecision jsnum.
Proof. solve_decision. Defined.

(** [x++] and [x + 1]. *)
Definition js_succ (x : jsnum) : jsnum :=
  match x with
  | Num n => Num (S n)
  | NaN => NaN
  end.

(** [x % n] for a length [n]: [NaN] when [n] is zero. *)
Definition js_mod (x : jsnum) (n : nat) : jsnum :=
  match x, n with
  | Num k, S _ => Num (k mod n)
  | _, _ => NaN
  end.

(** [x > y]; false as soon as one side is [NaN]. *)
Definition js_gt (x y : jsnum) : bool :=
  match x, y with
  | Num a, Num b => bool_decide (b < a)
  | _, _ => false
  end.

(** [{ id, symbol, matched, flipped }]; [symbol] is [None] when the card was
    built from an index past the end of the selected symbols
    ([undefined]). *)
Record Card : Type := mkCard {
  card_id : nat;
  symbol : option string;
  matched : bool;
  flipped : bool
}.

(** [{ id, name, connected }]; [id] is the socket id. *)
Record Player : Type := mkPlayer {
  player_id : string;
  name : string;
  connected : bool
}.

(** An entry of [gameState.players]: [{ ...player, roomId }]. *)
Record PlayerData : Type := mkPlayerData {
  pd_player : Player;
  roomId : string
}.

Record Config : Type := mkConfig {
  gridSize : nat;
  theme : string;
  maxPlayers : nat;
  timeLimit : option Z
}.

(** The [gameConfig] argument of [createRoom]: each key may be absent. *)
Record ConfigArg : Type := mkConfigArg {
  arg_gridSize : option nat;
  arg_theme : option string;
  arg_maxPlayers : option nat;
  arg_timeLimit : option (option Z)
}.

Definition noConfig : ConfigArg := mkConfigArg None None None None.

Definition defaultConfig : Config :=
  {| gridSize := 4; theme := "emojis"; maxPlayers := 2; timeLimit := None |}.

(** [{ ...defaultConfig, ...gameConfig }] *)
Definition mergeConfig (d : Config) (c : ConfigArg) : Config :=
  {| gridSize := default (gridSize d) (arg_gridSize c);
     theme := default (theme d) (arg_theme c);
     maxPlayers := default (maxPlayers d) (arg_maxPlayers c);
     timeLimit := default (timeLimit d) (arg_timeLimit c) |}.

(** References into the object stores. *)
Definition cardRef : Type := nat.
Definition roomRef : Type := nat.

Record Room : Type := mkRoom {
  room_id : string;
  config : Config;
  players : list Player;
  gameBoard : list cardRef;
  currentPlayer : jsnum;
  gameStarted : bool;
  paused : bool;
  pausedBy : option string;
  pausedAt : option Z;
  scores : list (string * jsnum);
  moves : nat;
  startTime : option Z;
  flippedCards : list cardRef;
  matchedPairs : nat
}.

(** The room literal of [createRoom]. *)
Definition newRoom (rid : string) (c : ConfigArg) : Room :=
  {| room_id := rid;
     config := mergeConfig defaultConfig c;
     players := [];
     gameBoard := [];
     currentPlayer := Num 0;
     gameStarted := false;
     paused := false;
     pausedBy := None;
     pausedAt := None;
     scores := [];
     moves := 0;
     startTime := None;
     flippedCards := [];
     matchedPairs := 0 |}.

(** Field assignments on a room. *)
Definition set_players (v : list Player) (r : Room) : Room :=
  mkRoom (room_id r) (config r) v (gameBoard r) (currentPlayer r)
    (gameStarted r) (paused r) (pausedBy r) (pausedAt r) (scores r) (moves r)
    (startTime r) (flippedCards r) (matchedPairs r).

Definition set_gameBoard (v : list cardRef) (r : Room) : Room :=
  mkRoom (room_id r) (config r) (players r) v (currentPlayer r)
    (gameStarted r) (paused r) (pausedBy r) (pausedAt r) (scores r) (moves r)
    (startTime r) (flippedCards r) (matchedPairs r).

Definition set_currentPlayer (v : jsnum) (r : Room) : Room :=
  mkRoom (room_id r) (config r) (players r) (gameBoard r) v
    (gameStarted r) (paused r) (pausedBy r) (pausedAt r) (scores r) (moves r)
    (startTime r) (flippedCards r) (matchedPairs r).

Definition set_gameStarted (v : bool) (r : Room) : Room :=
  mkRoom (room_id r) (config r) (players r) (gameBoard r) (currentPlayer r)
    v (paused r) (pausedBy r) (pausedAt r) (scores r) (moves r)
    (startTime r) (flippedCards r) (matchedPairs r).

Definition set_paused (v : bool) (r : Room) : Room :=
  mkRoom (room_id r) (config r) (players r) (gameBoard r) (currentPlayer r)
    (gameStarted r) v (pausedBy r) (pausedAt r) (scores r) (moves r)
    (startTime r) (flippedCards r) (matchedPairs r).

Definition set_pausedBy (v : option string) (r : Room) : Room :=
  mkRoom (room_id r) (config r) (players r) (gameBoard r) (currentPlayer r)
    (gameStarted r) (paused r) v (pausedAt r) (scores r) (moves r)
    (startTime r) (flippedCards r) (matchedPairs r).

Definition set_pausedAt (v : option Z) (r : Room) : Room :=
  mkRoom (room_id r) (config r) (players r) (gameBoard r) (currentPlayer r)
    (gameStarted r) (paused r) (pausedBy r) v (scores r) (moves r)
    (startTime r) (flippedCards r) (matchedPairs r).

Definition set_scores (v : list (string * jsnum)) (r : Room) : Room :=
  mkRoom (room_id r) (config r) (players r) (gameBoard r) (currentPlayer r)
    (gameStarted r) (paused r) (pausedBy r) (pausedAt r) v (moves r)
    (startTime r) (flippedCards r) (matchedPairs r).

Definition set_moves (v : nat) (r : Room) : Room :=
  mkRoom (room_id r) (config r) (players r) (gameBoard r) (currentPlayer r)
    (gameStarted r) (paused r) (pausedBy r) (pausedAt r) (scores r) v
    (startTime r) (flippedCards r) (matchedPairs r).

Definition set_startTime (v : option Z) (r : Room) : Room :=
  mkRoom (room_id r) (config r) (players r) (gameBoard r) (currentPlayer r)
    (gameStarted r) (paused r) (pausedBy r) (pausedAt r) (scores r) (moves r)
    v (flippedCards r) (matchedPairs r).

Definition set_flippedCards (v : list cardRef) (r : Room) : Room :=
  mkRoom (room_id r) (config r) (players r) (gameBoard r) (currentPlayer r)
    (gameStarted r) (paused r) (pausedBy r) (pausedAt r) (scores r) (moves r)
    (startTime r) v (matchedPairs r).

Definition set_matchedPairs (v : nat) (r : Room) : Room :=
  mkRoom (room_id r) (config r) (players r) (gameBoard r) (currentPlayer r)
    (gameStarted r) (paused r) (pausedBy r) (pausedAt r) (scores r) (moves r)
    (startTime r) (flippedCards r) v.

Definition set_matched (v : bool) (c : Card) : Card :=
  mkCard (card_id c) (symbol c) v (flipped c).

Definition set_flipped (v : bool) (c : Card) : Card :=
  mkCard (card_id c) (symbol c) (matched c) v.

Definition set_connected (v : bool) (p : Player) : Player :=
  mkPlayer (player_id p) (name p) v.

(** ** The score table: a plain object keyed by socket id

    Socket ids are not canonical array indices, so [Object.keys] lists the
    keys in the order in which they were first assigned. *)

Definition ScoreTable : Type := list (string * jsnum).

(** [Object.keys(scores)] *)
Definition score_keys (sc : ScoreTable) : list string := sc.*1.

(** [scores[k]]; [None] is [undefined]. *)
Fixpoint score_get (k : string) (sc : ScoreTable) : option jsnum :=
  match sc with
  | [] => None
  | (k', v) :: rest => if decide (k' = k) then Some v else score_get k rest
  end.

(** [scores[k] = v]: an existing key keeps its place, a new key goes last. *)
Fixpoint score_set (k : string) (v : jsnum) (sc : ScoreTable) : ScoreTable :=
  match sc with
  | [] => [(k, v)]
  | (k', v') :: rest =>
      if decide (k' = k) then (k', v) :: rest else (k', v') :: score_set k v rest
  end.

(** [scores[k]++]; [undefined++] stores [NaN]. *)
Definition score_incr (k : string) (sc : ScoreTable) : ScoreTable :=
  score_set k (from_option js_succ NaN (score_get k sc)) sc.

(** The value compared by [room.scores[a] > room.scores[b]]. *)
Definition score_val (sc : ScoreTable) (k : string) : jsnum :=
  default NaN (score_get k sc).

(** ** Board generator *)

Definition emojis : list string :=
  ["🎮"; "🎯"; "🎨"; "🎭"; "🎪"; "🎫"; "🎬"; "🎤"; "🎧"; "🎼"; "🎹"; "🎺"; "🎸"; "🥁"; "🎷"; "🎻"].

Definition animals : list string :=
  ["🐶"; "🐱"; "🐭"; "🐹"; "🐰"; "🦊"; "🐻"; "🐼"; "🐨"; "🐯"; "🦁"; "🐮"; "🐷"; "🐸"; "🐵"; "🐔"].

Definition numbers : list string :=
  ["1️⃣"; "2️⃣"; "3️⃣"; "4️⃣"; "5️⃣"; "6️⃣"; "7️⃣"; "8️⃣"; "9️⃣"; "🔟"; "🔢"; "💯"; "📊"; "📈"; "📉"; "💹"].

Definition letters : list string :=
  ["🅰️"; "🅱️"; "🅾️"; "🆎"; "🅿️"; "🆘"; "🆒"; "🆕"; "🆓"; "🆙"; "🔤"; "🔠"; "🔡"; "💠"; "🔷"; "🔶"].

(** What [themes[theme]] evaluates to. *)
Inductive themeEntry : Type :=
  | OwnSymbols (l : list string)
  | Inherited
  | Missing.

(** Property names every object literal inherits from [Object.prototype]:
    [themes[k]] is then a function (or the prototype itself), which is truthy
    and has no [slice]. *)
Definition inheritedKeys : list string :=
  ["constructor"; "hasOwnProperty"; "isPrototypeOf"; "propertyIsEnumerable";
   "toLocaleString"; "toString"; "valueOf"; "__proto__"; "__defineGetter__";
   "__defineSetter__"; "__lookupGetter__"; "__lookupSetter__"].

Definition themes (k : string) : themeEntry :=
  if decide (k = "emojis") then OwnSymbols emojis
  else if decide (k = "animals") then OwnSymbols animals
  else if decide (k = "numbers") then OwnSymbols numbers
  else if decide (k = "letters") then OwnSymbols letters
  else if decide (k ∈ inheritedKeys) then Inherited
  else Missing.

(** [themes[theme] || themes.emojis], as far as [slice] can be called on it;
    [None] stands for the [TypeError] raised by [symbols.slice]. *)
Definition themeSymbols (k : string) : option (list string) :=
  match themes k with
  | OwnSymbols l => Some l
  | Inherited => None
  | Missing => Some emojis
  end.

(** The two cards pushed by iteration [i] of the pair loop. *)
Definition pairOf (selectedSymbols : list string) (i : nat) : list Card :=
  [ mkCard (i * 2) (selectedSymbols !! i) false false;
    mkCard (i * 2 + 1) (selectedSymbols !! i) false false ].

(** The cards in creation order.  [pairs = totalCards / 2] is a fraction when
    [gridSize] is odd: [slice(0, pairs)] truncates it, while the loop test
    [i < pairs] lets [i] run up to its ceiling. *)
Definition makeCards (gridSize : nat) (symbols : list string) : list Card :=
  let totalCards := gridSize * gridSize in
  let selectedSymbols := take (totalCards / 2) symbols in
  flat_map (pairOf selectedSymbols) (seq 0 ((totalCards + 1) / 2)).

(** [[cards[i], cards[j]] = [cards[j], cards[i]]] *)
Definition swap {A : Type} (l : list A) (i j : nat) : list A :=
  match l !! i, l !! j with
  | Some ci, Some cj => <[j := ci]> (<[i := cj]> l)
  | _, _ => l
  end.

(** The Fisher-Yates loop from index [i] down to 1.  [rnd i] is the random
    draw of iteration [i]; [Math.floor(Math.random() * (i + 1))] ranges over
    [0..i], which is [rnd i mod (i + 1)]. *)
Fixpoint shuffleFrom {A : Type} (rnd : nat → nat) (i : nat) (l : list A) : list A :=
  match i with
  | 0 => l
  | S i' => shuffleFrom rnd i' (swap l i (rnd i mod S i))
  end.

Definition shuffle {A : Type} (rnd : nat → nat) (l : list A) : list A :=
  shuffleFrom rnd (length l - 1) l.

(** ** Server state and emitted messages *)

(** The variables captured by the callback passed to [setTimeout] in the
    flip-card handler: [room], [roomId], [card1], [card2] and [currentPlayer]
    (of which only [currentPlayer.id] is read). *)
Record Timer : Type := mkTimer {
  t_room : roomRef;
  t_roomId : string;
  t_card1 : cardRef;
  t_card2 : cardRef;
  t_playerId : string
}.

Record Server : Type := mkServer {
  roomObjs : list Room;                    (* every room object created *)
  cardObjs : list Card;                    (* every card object created *)
  rooms : gmap string roomRef;             (* gameState.rooms *)
  socketPlayers : gmap string PlayerData;  (* gameState.players *)
  pending : list Timer                     (* callbacks scheduled, oldest first *)
}.

Definition initialServer : Server := mkServer [] [] ∅ ∅ [].

Definition set_roomObjs (v : list Room) (st : Server) : Server :=
  mkServer v (cardObjs st) (rooms st) (socketPlayers st) (pending st).

Definition set_cardObjs (v : list Card) (st : Server) : Server :=
  mkServer (roomObjs st) v (rooms st) (socketPlayers st) (pending st).

Definition set_rooms (v : gmap string roomRef) (st : Server) : Server :=
  mkServer (roomObjs st) (cardObjs st) v (socketPlayers st) (pending st).

Definition set_socketPlayers (v : gmap string PlayerData) (st : Server) : Server :=
  mkServer (roomObjs st) (cardObjs st) (rooms st) v (pending st).

Definition set_pending (v : list Timer) (st : Server) : Server :=
  mkServer (roomObjs st) (cardObjs st) (rooms st) (socketPlayers st) v.

(** Mutation of the room object, or of the card object, behind a reference. *)
Definition set_room (a : roomRef) (r : Room) (st : Server) : Server :=
  set_roomObjs (<[a := r]> (roomObjs st)) st.

Definition set_card (a : cardRef) (c : Card) (st : Server) : Server :=
  set_cardObjs (<[a := c]> (cardObjs st)) st.

(** [gameState.rooms.get(roomId)] together with the object it refers to. *)
Definition getRoom (st : Server) (rid : string) : option (roomRef * Room) :=
  a ← rooms st !! rid; r ← roomObjs st !! a; Some (a, r).

(** Addressee of an [emit]: [socket.emit], [io.to(room).emit] and
    [socket.to(room).emit] (everybody in the room but the socket). *)
Inductive Target : Type :=
  | ToSocket (sid : string)
  | ToRoom (rid : string)
  | ToOthers (rid sid : string).

Inductive Message : Type :=
  | Error (message : string)
  | RoomJoined (rid playerId : string) (ps : list Player) (c : Config)
  | PlayerJoined (p : Player)
  | GameStarted (board : list Card) (current : option Player) (sc : ScoreTable)
  | CardFlipped (cardId : nat) (sym : option string) (playerId : string)
  | MatchFound (card1 card2 : nat) (playerId : string) (sc : ScoreTable)
  | GameEnded (sc : ScoreTable) (duration : Z) (mv : nat) (winner : option Player)
  | NoMatch (card1 card2 : nat)
  | TurnChanged (current : option Player)
  | GamePaused (by_ : string) (byName : option string) (reason : option string)
  | GameResumed (by_ : string) (byName : string)
  | PlayerLeft (p : Player)
  | PlayerDisconnected (p : Player).

Definition Output : Type := Target * Message.

Definition reject (sid : string) (message : string) : list Output :=
  [(ToSocket sid, Error message)].

(** ** GameState methods *)

(** [createRoom] stores a new room object under [roomId], whatever the map
    held there before. *)
Definition createRoom (rid : string) (c : ConfigArg) (st : Server) : Server :=
  set_rooms (<[rid := length (roomObjs st)]> (rooms st))
    (set_roomObjs (roomObjs st ++ [newRoom rid c]) st).

Definition addPlayerToRoom (rid : string) (player : Player) (st : Server)
  : Server * bool :=
  match getRoom st rid with
  | None => (st, false)
  | Some (a, room) =>
      if decide (maxPlayers (config room) ≤ length (players room)) then (st, false)
      else
        let room1 := set_players (players room ++ [player]) room in
        let room2 :=
          set_scores (score_set (player_id player) (Num 0) (scores room1)) room1 in
        (set_socketPlayers
           (<[player_id player := mkPlayerData player rid]> (socketPlayers st))
           (set_room a room2 st), true)
  end.

(** [generateGameBoard(room)]: the new card objects are added to the store in
    creation order; the board lists them in shuffled order.  [None] when the
    theme lookup makes [symbols.slice] throw (nothing is assigned then). *)
Definition generateGameBoard (rnd : nat → nat) (a : roomRef) (st : Server)
  : option Server :=
  room ← roomObjs st !! a;
  symbols ← themeSymbols (theme (config room));
  let cards := makeCards (gridSize (config room)) symbols in
  let board := shuffle rnd (seq (length (cardObjs st)) (length cards)) in
  Some (set_room a (set_gameBoard board room)
          (set_cardObjs (cardObjs st ++ cards) st)).

(** The card objects a list of references points to. *)
Definition derefCards (st : Server) (refs : list cardRef) : list Card :=
  omap (λ a, cardObjs st !! a) refs.

(** ** Input sanitization of join-room *)

Definition between (lo hi : nat) (c : ascii) : bool :=
  (lo <=? nat_of_ascii c)%nat && (nat_of_ascii c <=? hi)%nat.

(** Complement of the class [[^a-zA-Z0-9-_]]. *)
Definition isRoomIdChar (c : ascii) : bool :=
  between 97 122 c || between 65 90 c || between 48 57 c
  || between 45 45 c || between 95 95 c.

Definition sanitizeRoomId (s : string) : string :=
  string_of_list_ascii (List.filter isRoomIdChar (list_ascii_of_string s)).

Definition isAngle (c : ascii) : bool := between 60 60 c || between 62 62 c.

(** The white space characters of the ASCII range: TAB, LF, VT, FF, CR and
    SPACE. *)
Definition isSpace (c : ascii) : bool := between 9 13 c || between 32 32 c.

(** The characters [String.prototype.trim] removes (WhiteSpace and
    LineTerminator of ECMAScript), each as its UTF-8 byte sequence: U+0009 to
    U+000D, U+0020, U+00A0, U+1680, U+2000 to U+200A, U+2028, U+2029, U+202F,
    U+205F, U+3000 and U+FEFF. *)
Definition whiteSpaces : list (list ascii) :=
  Eval cbv in
    List.map (List.map ascii_of_nat)
      [ [9]; [10]; [11]; [12]; [13]; [32];
        [194; 160];
        [225; 154; 128];
        [226; 128; 128]; [226; 128; 129]; [226; 128; 130]; [226; 128; 131];
        [226; 128; 132]; [226; 128; 133]; [226; 128; 134]; [226; 128; 135];
        [226; 128; 136]; [226; 128; 137]; [226; 128; 138];
        [226; 128; 168]; [226; 128; 169]; [226; 128; 175];
        [226; 129; 159];
        [227; 128; 128];
        [239; 187; 191] ].

(** [stripPrefix w l]: the rest of [l] after its prefix [w], if [l] starts
    with [w]. *)
Fixpoint stripPrefix (w l : list ascii) : option (list ascii) :=
  match w, l with
  | [], _ => Some l
  | c :: w', d :: l' => if Ascii.eqb c d then stripPrefix w' l' else None
  | _ :: _, [] => None
  end.

(** The rest of [l] after one leading character of the table [ws]. *)
Fixpoint stripWhite (ws : list (list ascii)) (l : list ascii)
  : option (list ascii) :=
  match ws with
  | [] => None
  | w :: ws' =>
      match stripPrefix w l with
      | Some rest => Some rest
      | None => stripWhite ws' l
      end
  end.

(** Leading characters of the table are removed one after the other; every
    removal shortens the string, so [length l] rounds are enough. *)
Fixpoint dropWhite (fuel : nat) (ws : list (list ascii)) (l : list ascii)
  : list ascii :=
  match fuel with
  | 0 => l
  | S fuel' =>
      match stripWhite ws l with
      | Some rest => dropWhite fuel' ws rest
      | None => l
      end
  end.

Definition dropSpaces (l : list ascii) : list ascii :=
  dropWhite (length l) whiteSpaces l.

(** The same on a reversed string, whose white space reads backwards. *)
Definition dropSpacesEnd (l : list ascii) : list ascii :=
  dropWhite (length l) (List.map (@rev ascii) whiteSpaces) l.

(** [s.trim()]: white space is removed at both ends. *)
Definition trim (l : list ascii) : list ascii :=
  rev (dropSpacesEnd (rev (dropSpaces l))).

(** [playerName.replace(/[<>]/g, '').trim()] *)
Definition sanitizePlayerName (s : string) : string :=
  string_of_list_ascii
    (trim (List.filter (λ c, negb (isAngle c)) (list_ascii_of_string s))).

(** Names made of angle brackets and white space only. *)
Definition angleBrackets : list (list ascii) :=
  Eval cbv in List.map (List.map ascii_of_nat) [ [60]; [62] ].

Definition blankName (s : string) : Prop :=
  ∃ parts : list (list ascii),
    Forall (λ p, p ∈ angleBrackets ++ whiteSpaces) parts
    ∧ list_ascii_of_string s = concat parts.

(** The name that consists of one no-break space, U+00A0. *)
Definition noBreakSpace : string :=
  String (ascii_of_nat 194) (String (ascii_of_nat 160) EmptyString).


(** [room.players.find(p => p.id === socket.id)] with its index
    ([findIndex]). *)
Definition findPlayer (sid : string) (ps : list Player) : option (nat * Player) :=
  list_find (λ p, player_id p = sid) ps.

(** [room.players[room.currentPlayer]] *)
Definition playerAt (ps : list Player) (i : jsnum) : option Player :=
  match i with
  | Num n => ps !! n
  | NaN => None
  end.

(** [room.gameBoard.find(c => c.id === cardId)] *)
Fixpoint findCard (cards : list Card) (board : list cardRef) (cardId : nat)
  : option (cardRef * Card) :=
  match board with
  | [] => None
  | a :: rest =>
      match cards !! a with
      | Some c => if decide (card_id c = cardId) then Some (a, c)
                  else findCard cards rest cardId
      | None => findCard cards rest cardId
      end
  end.

(** ** Socket handlers *)

(** The guarded creation at the head of join-room:
    [if (!gameState.rooms.has(id)) gameState.createRoom(id)]. *)
Definition ensureRoom (rid : string) (st : Server) : Server :=
  if decide (is_Some (rooms st !! rid)) then st else createRoom rid noConfig st.

(** join-room *)
Definition joinRoom (sid rawRoomId rawName : string) (st : Server)
  : Server * list Output :=
  let rid := sanitizeRoomId rawRoomId in
  let pname := sanitizePlayerName rawName in
  if decide (rid = "" ∨ pname = "") then
    (st, reject sid "Invalid room ID or player name")
  else
    let st1 := ensureRoom rid st in
    let player := mkPlayer sid pname true in
    let '(st2, success) := addPlayerToRoom rid player st1 in
    if success then
      match getRoom st2 rid with
      | Some (_, room) =>
          (st2, [ (ToSocket sid, RoomJoined rid sid (players room) (config room));
                  (ToOthers rid sid, PlayerJoined player) ])
      | None => (st2, reject sid "Server error occurred")
      end
    else (st2, reject sid "Unable to join room. Room may be full.").

(** The board as sent by game-started: every card with [flipped: false]. *)
Definition hiddenBoard (st : Server) (board : list cardRef) : list Card :=
  set_flipped false <$> derefCards st board.

(** start-game *)
Definition startGame (sid rid : string) (now : Z) (rnd : nat → nat) (st : Server)
  : Server * list Output :=
  match getRoom st rid with
  | None => (st, reject sid "Room not found")
  | Some (a, room) =>
      match findPlayer sid (players room) with
      | None => (st, reject sid "Player not in room")
      | Some _ =>
          match generateGameBoard rnd a st with
          | None => (st, reject sid "Error starting game")
          | Some st1 =>
              match roomObjs st1 !! a with
              | None => (st, reject sid "Error starting game")
              | Some room1 =>
                  let room2 :=
                    set_moves 0
                      (set_currentPlayer (Num 0)
                         (set_startTime (Some now)
                            (set_gameStarted true room1))) in
                  (set_room a room2 st1,
                   [ (ToRoom rid,
                      GameStarted (hiddenBoard st1 (gameBoard room2))
                        (playerAt (players room2) (currentPlayer room2))
                        (scores room2)) ])
              end
          end
      end
  end.

(** flip-card.  Reading [currentPlayer.id] throws when the current index
    designates no player; the [catch] clause then reports the error. *)
Definition flipCard (sid rid : string) (cardId : nat) (st : Server)
  : Server * list Output :=
  match getRoom st rid with
  | None => (st, reject sid "Game not started or room not found")
  | Some (a, room) =>
      if negb (gameStarted room) then
        (st, reject sid "Game not started or room not found")
      else if paused room then
        (st, reject sid "Game is currently paused")
      else
        match playerAt (players room) (currentPlayer room) with
        | None => (st, reject sid "Error processing card flip")
        | Some current =>
            if decide (player_id current ≠ sid) then
              (st, reject sid "Not your turn")
            else
              match findCard (cardObjs st) (gameBoard room) cardId with
              | None => (st, reject sid "Invalid card selection")
              | Some (c, card) =>
                  if matched card || flipped card then
                    (st, reject sid "Invalid card selection")
                  else
                    let st1 := set_card c (set_flipped true card) st in
                    let room1 :=
                      set_flippedCards (flippedCards room ++ [c]) room in
                    let st2 := set_room a room1 st1 in
                    let out :=
                      [ (ToRoom rid, CardFlipped (card_id card) (symbol card) sid) ] in
                    match flippedCards room1 with
                    | [card1; card2] =>
                        (set_pending
                           (pending st2 ++
                              [mkTimer a rid card1 card2 (player_id current)])
                           st2, out)
                    | _ => (st2, out)
                    end
              end
        end
  end.

(** [Object.keys(room.scores).reduce((a, b) => room.scores[a] > room.scores[b] ? a : b)];
    [None] is the [TypeError] of [reduce] on an empty array. *)
Definition bestKey (sc : ScoreTable) : option string :=
  match score_keys sc with
  | [] => None
  | k :: ks =>
      Some (foldl (λ a b, if js_gt (score_val sc a) (score_val sc b) then a else b) k ks)
  end.

(** [room.players.find(p => p.id === <best key>)] *)
Definition findWinner (room : Room) : option Player :=
  k ← bestKey (scores room); snd <$> findPlayer k (players room).

(** [cards[a].field = v] for the card behind a reference. *)
Definition updCard (a : cardRef) (f : Card → Card) (st : Server) : Server :=
  match cardObjs st !! a with
  | Some c => set_card a (f c) st
  | None => st
  end.

Definition cardIdAt (st : Server) (a : cardRef) : nat :=
  from_option card_id 0 (cardObjs st !! a).

Definition symbolAt (st : Server) (a : cardRef) : option string :=
  cardObjs st !! a ≫= symbol.

(** The callback scheduled by the second flip. *)
Definition resolve (t : Timer) (now : Z) (st : Server) : Server * list Output :=
  match roomObjs st !! t_room t with
  | None => (st, [])
  | Some room =>
      let ids := (cardIdAt st (t_card1 t), cardIdAt st (t_card2 t)) in
      let '(st1, room1, out) :=
        if decide (symbolAt st (t_card1 t) = symbolAt st (t_card2 t)) then
          let st1 :=
            updCard (t_card2 t) (set_matched true)
              (updCard (t_card1 t) (set_matched true) st) in
          let room1 :=
            set_matchedPairs (S (matchedPairs room))
              (set_scores (score_incr (t_playerId t) (scores room)) room) in
          let found :=
            (ToRoom (t_roomId t),
             MatchFound ids.1 ids.2 (t_playerId t) (scores room1)) in
          if decide (matchedPairs room1 * 2 = length (gameBoard room1)) then
            (st1, room1,
             [ found;
               (ToRoom (t_roomId t),
                GameEnded (scores room1) (now - default 0%Z (startTime room1))
                  (moves room1) (findWinner room1)) ])
          else (st1, room1, [found])
        else
          let st1 :=
            updCard (t_card2 t) (set_flipped false)
              (updCard (t_card1 t) (set_flipped false) st) in
          let room1 :=
            set_currentPlayer
              (js_mod (js_succ (currentPlayer room)) (length (players room)))
              room in
          (st1, room1,
           [ (ToRoom (t_roomId t), NoMatch ids.1 ids.2);
             (ToRoom (t_roomId t),
              TurnChanged (playerAt (players room1) (currentPlayer room1))) ])
      in
      (set_room (t_room t)
         (set_moves (S (moves room1)) (set_flippedCards [] room1)) st1,
       out)
  end.

(** The oldest scheduled callback runs (all delays are equal, so callbacks
    run in the order in which they were scheduled). *)
Definition fireTimer (now : Z) (st : Server) : Server * list Output :=
  match pending st with
  | [] => (st, [])
  | t :: rest => resolve t now (set_pending rest st)
  end.

(** pause-game *)
Definition pauseGame (sid rid : string) (now : Z) (st : Server)
  : Server * list Output :=
  match getRoom st rid with
  | None => (st, reject sid "Cannot pause: Game not started or room not found")
  | Some (a, room) =>
      if negb (gameStarted room) then
        (st, reject sid "Cannot pause: Game not started or room not found")
      else
        match findPlayer sid (players room) with
        | None => (st, reject sid "Player not in room")
        | Some (_, player) =>
            if paused room then (st, [])
            else
              (set_room a
                 (set_pausedAt (Some now)
                    (set_pausedBy (Some sid) (set_paused true room))) st,
               [ (ToRoom rid, GamePaused sid (Some (name player)) None) ])
        end
  end.

(** [room.startTime += pauseDuration], guarded by [if (room.pausedAt)]: a
    time stamp of [0] is falsy, and [null + d] is [d]. *)
Definition resumedStart (room : Room) (now : Z) : option Z :=
  match pausedAt room with
  | Some t =>
      if decide (t = 0%Z) then startTime room
      else Some (default 0%Z (startTime room) + (now - t))%Z
  | None => startTime room
  end.

(** resume-game *)
Definition resumeGame (sid rid : string) (now : Z) (st : Server)
  : Server * list Output :=
  match getRoom st rid with
  | None => (st, reject sid "Cannot resume: Game not started or room not found")
  | Some (a, room) =>
      if negb (gameStarted room) then
        (st, reject sid "Cannot resume: Game not started or room not found")
      else
        match findPlayer sid (players room) with
        | None => (st, reject sid "Player not in room")
        | Some (_, player) =>
            if paused room then
              (set_room a
                 (set_pausedAt None
                    (set_pausedBy None
                       (set_startTime (resumedStart room now)
                          (set_paused false room)))) st,
               [ (ToRoom rid, GameResumed sid (name player)) ])
            else (st, [])
        end
  end.

(** leave-room *)
Definition leaveRoom (sid rid : string) (st : Server) : Server * list Output :=
  let '(st1, out) :=
    match getRoom st rid with
    | None => (st, [])
    | Some (a, room) =>
        match findPlayer sid (players room) with
        | None => (st, [])
        | Some (playerIndex, player) =>
            let room1 := set_players (delete playerIndex (players room)) room in
            let st1 := set_room a room1 st in
            let st2 :=
              if decide (length (players room1) = 0) then
                set_rooms (delete rid (rooms st1)) st1
              else st1 in
            (st2, [ (ToOthers rid sid, PlayerLeft player) ])
        end
    end in
  (set_socketPlayers (delete sid (socketPlayers st1)) st1, out).

(** The players after [player.connected = false] on the player found. *)
Definition markDisconnected (i : nat) (player : Player) (ps : list Player)
  : list Player :=
  <[i := set_connected false player]> ps.

(** disconnect *)
Definition disconnect (sid : string) (now : Z) (st : Server)
  : Server * list Output :=
  match socketPlayers st !! sid with
  | None => (st, [])
  | Some playerData =>
      let rid := roomId playerData in
      let '(st1, out) :=
        match getRoom st rid with
        | None => (st, [])
        | Some (a, room) =>
            match findPlayer sid (players room) with
            | None => (st, [])
            | Some (i, player) =>
                let room1 :=
                  set_players (markDisconnected i player (players room)) room in
                let left :=
                  (ToOthers rid sid, PlayerDisconnected (set_connected false player)) in
                if gameStarted room1 && negb (paused room1) then
                  (set_room a
                     (set_pausedAt (Some now)
                        (set_pausedBy (Some sid) (set_paused true room1))) st,
                   [ left;
                     (ToRoom rid, GamePaused sid None (Some "Player disconnected")) ])
                else (set_room a room1 st, [left])
            end
        end in
      (set_socketPlayers (delete sid (socketPlayers st1)) st1, out)
  end.

(** ** The server as a transition system *)

Inductive Event : Type :=
  | JoinRoom (sid rawRoomId rawName : string)
  | StartGame (sid rid : string) (now : Z) (rnd : nat → nat)
  | FlipCard (sid rid : string) (cardId : nat)
  | TimerFires (now : Z)
  | PauseGame (sid rid : string) (now : Z)
  | ResumeGame (sid rid : string) (now : Z)
  | LeaveRoom (sid rid : string)
  | Disconnect (sid : string) (now : Z).

Definition handle (e : Event) (st : Server) : Server * list Output :=
  match e with
  | JoinRoom sid rid pname => joinRoom sid rid pname st
  | StartGame sid rid now rnd => startGame sid rid now rnd st
  | FlipCard sid rid cardId => flipCard sid rid cardId st
  | TimerFires now => fireTimer now st
  | PauseGame sid rid now => pauseGame sid rid now st
  | ResumeGame sid rid now => resumeGame sid rid now st
  | LeaveRoom sid rid => leaveRoom sid rid st
  | Disconnect sid now => disconnect sid now st
  end.

(** State after a sequence of events. *)
Definition run (evs : list Event) (st : Server) : Server :=
  foldl (λ s e, (handle e s).1) st evs.

Inductive reachable : Server → Prop :=
  | reach_init : reachable initialServer
  | reach_step e st : reachable st → reachable (handle e st).1.

(** The cards of a room that are face up and not matched. *)
Definition faceUpUnmatched (st : Server) (room : Room) : list Card :=
  List.filter (λ c, flipped c && negb (matched c))
    (derefCards st (gameBoard room)).

(** ** Notions used by the statements *)

(** Ids of the players listed in a room, and ids with a score entry. *)
Definition playerIds (room : Room) : list string := player_id <$> players room.
Definition scoreIds (room : Room) : list string := score_keys (scores room).

(** Symbols shown by the board of a room. *)
Definition boardSymbols (st : Server) (room : Room) : list (option string) :=
  symbol <$> derefCards st (gameBoard room).

Definition occurrences (x : option string) (l : list (option string)) : nat :=
  length (filter (λ y, y = x) l).

(** Some precondition of flip-card fails: no started room under that id, the
    room is paused, the current player is not the caller, or the card is
    unknown, matched or already face up. *)
Definition flipRejected (sid rid : string) (cardId : nat) (st : Server) : Prop :=
  match getRoom st rid with
  | None => True
  | Some (_, room) =>
      gameStarted room = false
      ∨ paused room = true
      ∨ player_id <$> playerAt (players room) (currentPlayer room) ≠ Some sid
      ∨ match findCard (cardObjs st) (gameBoard room) cardId with
        | None => True
        | Some (_, card) => matched card = true ∨ flipped card = true
        end
  end.


(** No resume-game event for the room id occurs in a sequence of events. *)
Definition noResume (rid : string) (evs : list Event) : Prop :=
  ∀ sid now, ResumeGame sid rid now ∉ evs.

(** Every score is a number. *)
Definition numericScores (sc : ScoreTable) : Prop :=
  ∀ k v, (k, v) ∈ sc → v ≠ NaN.

(** The score of a key as a natural number (meaningful when the scores are
    numeric). *)
Definition scoreOf (sc : ScoreTable) (k : string) : nat :=
  match score_val sc k with
  | Num n => n
  | NaN => 0
  end.

(** ** Scenarios *)

(** The shuffle that leaves every card in place ([j = i] at each step). *)
Definition keepOrder : nat → nat := λ i, i.

(** Two players join the room, the first one starts the game. *)
Definition twoPlayersStarted : list Event :=
  [ JoinRoom "A" "r" "Ann"; JoinRoom "B" "r" "Bob";
    StartGame "A" "r" 100 keepOrder ].

(** The player to move turns three cards over before the first callback
    runs. *)
Definition threeFlips : list Event :=
  twoPlayersStarted ++ [ FlipCard "A" "r" 0; FlipCard "A" "r" 2; FlipCard "A" "r" 1 ].

(** Flips of cards [i] and [j] by [sid] followed by their resolution at time
    [now]. *)
Definition turn (sid : string) (i j : nat) (now : Z) : list Event :=
  [ FlipCard sid "r" i; FlipCard sid "r" j; TimerFires now ].

(** Player A matches seven pairs, turns the last two cards over and leaves
    the room before they are resolved. *)
Definition leaderLeaves : list Event :=
  twoPlayersStarted
  ++ flat_map (λ i, turn "A" (2 * i) (2 * i + 1) (Z.of_nat (2000 * (i + 1))))
       (seq 0 7)
  ++ [ FlipCard "A" "r" 14; FlipCard "A" "r" 15; LeaveRoom "A" "r" ].

(** Player B, listed in the started room [r], sends [leave-room] for a room
    that does not exist. *)
Definition strayLeave : list Event :=
  twoPlayersStarted ++ [ LeaveRoom "B" "zzz" ].

(** Player B, listed in the started room [r], joins a second room. *)
Definition secondJoin : list Event :=
  twoPlayersStarted ++ [ JoinRoom "B" "s" "Bob" ].

(** A room created with a six by six grid on the animals theme. *)
Definition sixBySix : Server :=
  createRoom "r" (mkConfigArg (Some 6) (Some "animals") None None) initialServer.

(** ** Invariants of the reachable states *)

(** What every handler preserves of a room object it mutates. *)
Definition kept (e : Event) (st : Server) (a : roomRef) (room room' : Room)
  : Prop :=
  room_id room' = room_id room
  ∧ (gameStarted room = true → gameStarted room' = true)
  ∧ (paused room = true →
     paused room' = true
     ∨ ∃ sid rid now, e = ResumeGame sid rid now ∧ rooms st !! rid = Some a)
  ∧ (∀ k, k ∈ scoreIds room → k ∈ scoreIds room')
  ∧ (∀ k, k ∈ playerIds room' → k ∈ scoreIds room')
  ∧ numericScores (scores room').

(** The three ways in which a handler acts on the room store: no room is
    touched, one room object is mutated, or a room is created for its first
    player. *)
Inductive stepShape (e : Event) (st st' : Server) : Prop :=
  | shape_same :
      roomObjs st' = roomObjs st →
      rooms st' = rooms st →
      pending st' ⊆ pending st →
      stepShape e st st'
  | shape_update a room room' :
      roomObjs st !! a = Some room →
      roomObjs st' = <[a := room']> (roomObjs st) →
      kept e st a room room' →
      (rooms st' = rooms st ∨ ∃ rid, rooms st' = delete rid (rooms st)) →
      (∀ t, t ∈ pending st' →
            t ∈ pending st ∨ (t_room t = a ∧ t_playerId t ∈ scoreIds room')) →
      stepShape e st st'
  | shape_create rid room' :
      roomObjs st' = roomObjs st ++ [room'] →
      rooms st' = <[rid := length (roomObjs st)]> (rooms st) →
      pending st' = pending st →
      room_id room' = rid →
      (∀ k, k ∈ playerIds room' → k ∈ scoreIds room') →
      numericScores (scores room') →
      stepShape e st st'.

Record consistent (st : Server) : Prop := mkConsistent {
  (* every listed player has a score entry *)
  cons_scores : ∀ a room, roomObjs st !! a = Some room →
                ∀ k, k ∈ playerIds room → k ∈ scoreIds room;
  (* no score is NaN *)
  cons_numeric : ∀ a room, roomObjs st !! a = Some room →
                 numericScores (scores room);
  (* the player captured by a scheduled callback has a score entry *)
  cons_timers : ∀ t, t ∈ pending st →
                ∃ room, roomObjs st !! t_room t = Some room
                        ∧ t_playerId t ∈ scoreIds room;
  (* a room is registered under its own id *)
  cons_rooms : ∀ rid a, rooms st !! rid = Some a →
               ∃ room, roomObjs st !! a = Some room ∧ room_id room = rid
}.

(** ** Sanitized strings, room invariants and evolution of the stores *)

(** A room id that went through the join-room filter: not empty, letters,
    digits, hyphen and underscore only. *)
Definition validRoomId (s : string) : Prop :=
  s ≠ "" ∧ Forall (λ c, isRoomIdChar c = true) (list_ascii_of_string s).

(** A player name that went through the join-room filter: not empty and free
    of angle brackets. *)
Definition validName (s : string) : Prop :=
  s ≠ "" ∧ Forall (λ c, isAngle c = false) (list_ascii_of_string s).

(** What holds of every room object the handlers build. *)
Definition roomOk (room : Room) : Prop :=
  config room = defaultConfig
  ∧ length (players room) ≤ 2
  ∧ validRoomId (room_id room)
  ∧ Forall (λ p, validName (name p)) (players room)
  ∧ (paused room = true → gameStarted room = true)
  ∧ (paused room = true ↔ is_Some (pausedBy room))
  ∧ (paused room = true ↔ is_Some (pausedAt room))
  ∧ (gameStarted room = true →
     length (gameBoard room) = 16 ∧ is_Some (startTime room)).

(** Every object of the first store is still in the second one, at the same
    reference, in a state related by [R]. *)
Definition listNext {A : Type} (R : A → A → Prop) (l l' : list A) : Prop :=
  ∀ i x, l !! i = Some x → ∃ x', l' !! i = Some x' ∧ R x x'.

(** What no handler undoes on a room object. *)
Definition roomNext (room room' : Room) : Prop :=
  room_id room' = room_id room
  ∧ config room' = config room
  ∧ (gameStarted room = true → gameStarted room' = true)
  ∧ matchedPairs room ≤ matchedPairs room'
  ∧ (∀ k, k ∈ scoreIds room → k ∈ scoreIds room').

(** What no handler undoes on a card object. *)
Definition cardNext (card card' : Card) : Prop :=
  card_id card' = card_id card
  ∧ symbol card' = symbol card
  ∧ (matched card = true → matched card' = true).

Definition storeNext (st st' : Server) : Prop :=
  listNext roomNext (roomObjs st) (roomObjs st')
  ∧ listNext cardNext (cardObjs st) (cardObjs st').

(** * Properties *)

(** ** Basic facts about the stores *)

Lemma getRoom_Some st rid a room :
  getRoom st rid = Some (a, room) ↔
  rooms st !! rid = Some a ∧ roomObjs st !! a = Some room.
Proof.
  unfold getRoom. split.
  - destruct (rooms st !! rid) as [a'|]; simpl; [|done].
    destruct (roomObjs st !! a') as [r|] eqn:E; simpl; [|done].
    intros [= <- <-]. done.
  - intros [-> H]. simpl. rewrite H. done.
Qed.

Lemma getRoom_None st rid :
  getRoom st rid = None ↔
  rooms st !! rid = None ∨ ∃ a, rooms st !! rid = Some a ∧ roomObjs st !! a = None.
Proof.
  unfold getRoom. split.
  - destruct (rooms st !! rid) as [a'|] eqn:E; simpl; [|by left].
    destruct (roomObjs st !! a') eqn:E'; simpl; [done|].
    intros _. right. eauto.
  - intros [-> | (a & -> & H)]; simpl; [done|]. by rewrite H.
Qed.

Lemma getRoom_createRoom rid c st :
  getRoom (createRoom rid c st) rid = Some (length (roomObjs st), newRoom rid c).
Proof.
  apply getRoom_Some. simpl. split.
  - apply lookup_insert_eq.
  - rewrite lookup_app_r by lia. by rewrite Nat.sub_diag.
Qed.

(** ** Rejected flips *)

(** C10: a flip-card event that fails any of the preconditions leaves the
    whole server state, hence every field of the room and of its cards, as it
    was; the only message is an error sent to the caller, so no card-flipped
    broadcast goes out. *)
Theorem rejected_flip_changes_nothing sid rid cardId st :
  flipRejected sid rid cardId st →
  (∃ message, flipCard sid rid cardId st = (st, [(ToSocket sid, Error message)]))
  ∧ (flipCard sid rid cardId st).1 = st
  ∧ ∀ target c s p, (target, CardFlipped c s p) ∉ (flipCard sid rid cardId st).2.
Proof.
  intros Hrej.
  assert (∃ message,
    flipCard sid rid cardId st = (st, [(ToSocket sid, Error message)])) as Hex.
  { unfold flipRejected in Hrej. unfold flipCard, reject.
    destruct (getRoom st rid) as [[a room]|]; [|eauto].
    destruct (gameStarted room); simpl; [|eauto].
    destruct (paused room); simpl; [eauto|].
    destruct (playerAt (players room) (currentPlayer room)) as [cur|]; [|eauto].
    destruct (decide (player_id cur ≠ sid)) as [|Heq]; [eauto|].
    destruct (findCard (cardObjs st) (gameBoard room) cardId) as [[c card]|];
      [|eauto].
    destruct (matched card) eqn:Hm; simpl; [eauto|].
    destruct (flipped card) eqn:Hf; simpl; [eauto|].
    exfalso. destruct Hrej as [?|[?|[Hturn|[?|?]]]]; try done.
    apply Hturn. simpl. f_equal. by apply dec_stable. }
  destruct Hex as [message Hex]. rewrite Hex. simpl.
  split; [eauto|]. split; [done|].
  intros target c s p Hin. apply list_elem_of_singleton in Hin. done.
Qed.

Lemma rejected_flip_changes_nothing_witness :
  flipRejected "B" "r" 0 (run twoPlayersStarted initialServer)
  ∧ (flipCard "B" "r" 0 (run twoPlayersStarted initialServer)).1
    = run twoPlayersStarted initialServer.
Proof.
  assert (flipRejected "B" "r" 0 (run twoPlayersStarted initialServer)) as H.
  { vm_compute. right. right. left. intros [=]. }
  split; [exact H|].
  exact (proj1 (proj2 (rejected_flip_changes_nothing "B" "r" 0 _ H))).
Defined.

(** ** Resolution of a pending pair *)

Lemma roomObjs_updCard a f st : roomObjs (updCard a f st) = roomObjs st.
Proof. unfold updCard. by destruct (cardObjs st !! a). Qed.

Lemma rooms_updCard a f st : rooms (updCard a f st) = rooms st.
Proof. unfold updCard. by destruct (cardObjs st !! a). Qed.

Lemma pending_updCard a f st : pending (updCard a f st) = pending st.
Proof. unfold updCard. by destruct (cardObjs st !! a). Qed.

Lemma lookup_set_room a r st room :
  roomObjs st !! a = Some room → roomObjs (set_room a r st) !! a = Some r.
Proof.
  intros H. simpl. apply list_lookup_insert_eq. by eapply lookup_lt_Some.
Qed.

Lemma lookup_set_room_ne a b r st :
  a ≠ b → roomObjs (set_room a r st) !! b = roomObjs st !! b.
Proof. intros H. simpl. by apply list_lookup_insert_ne. Qed.

(** C2: when the callback of a pending pair runs, a pair that does not match
    moves [currentPlayer] to [(old + 1) mod players.length], and a matching
    pair leaves [currentPlayer] as it was. *)
Theorem resolution_turn_order t rest now st room :
  pending st = t :: rest →
  roomObjs st !! t_room t = Some room →
  ∃ room',
    roomObjs (fireTimer now st).1 !! t_room t = Some room'
    ∧ (symbolAt st (t_card1 t) ≠ symbolAt st (t_card2 t) →
       ∀ i, currentPlayer room = Num i → players room ≠ [] →
            currentPlayer room' = Num ((i + 1) mod length (players room)))
    ∧ (symbolAt st (t_card1 t) = symbolAt st (t_card2 t) →
       currentPlayer room' = currentPlayer room).
Proof.
  intros Hp Hroom. unfold fireTimer. rewrite Hp. unfold resolve.
  change (roomObjs (set_pending rest st)) with (roomObjs st). rewrite Hroom.
  change (symbolAt (set_pending rest st)) with (symbolAt st).
  destruct (decide (symbolAt st (t_card1 t) = symbolAt st (t_card2 t)))
    as [Heq|Hne].
  - match goal with
    | |- context [decide (?x = ?y)] => destruct (decide (x = y))
    end; simpl;
      (eexists; split;
       [ apply list_lookup_insert_eq; rewrite !roomObjs_updCard;
         by eapply lookup_lt_Some
       | split; [done | reflexivity] ]).
  - simpl. eexists. split.
    + apply list_lookup_insert_eq. rewrite !roomObjs_updCard.
      by eapply lookup_lt_Some.
    + split; [|done]. intros _ i Hi Hne'. simpl. rewrite Hi. simpl.
      destruct (players room) as [|p ps]; [done|]. simpl length.
      unfold js_mod. do 2 f_equal. lia.
Qed.

Lemma resolution_turn_order_witness :
  ∃ room',
    roomObjs (fireTimer 2000
      (run (twoPlayersStarted ++ [FlipCard "A" "r" 0; FlipCard "A" "r" 2])
         initialServer)).1 !! 0 = Some room'
    ∧ currentPlayer room' = Num 1.
Proof.
  set (st := run (twoPlayersStarted ++ [FlipCard "A" "r" 0; FlipCard "A" "r" 2])
               initialServer).
  destruct (resolution_turn_order (mkTimer 0 "r" 0 2 "A") [] 2000 st
              (default (newRoom "r" noConfig) (roomObjs st !! 0)))
    as (room' & Hl & Hno & _).
  - vm_compute. reflexivity.
  - vm_compute. reflexivity.
  - exists room'. split; [exact Hl|].
    apply (Hno ltac:(vm_compute; discriminate) 0);
      [vm_compute; reflexivity | vm_compute; discriminate].
Defined.

(** ** Pause and resume *)

(** C9 fails as stated: a member of a room that has not been started (so it
    is not paused) who sends resume-game gets an error notice. *)
Lemma resume_in_lobby_is_an_error :
  let st := run [JoinRoom "A" "r" "Ann"] initialServer in
  ∃ a room,
    getRoom st "r" = Some (a, room)
    ∧ is_Some (findPlayer "A" (players room))
    ∧ paused room = false
    ∧ resumeGame "A" "r" 5 st
      = (st, [(ToSocket "A",
               Error "Cannot resume: Game not started or room not found")]).
Proof.
  eexists _, _. split; [vm_compute; reflexivity|].
  split; [vm_compute; eauto|]. split; reflexivity.
Qed.

(** C9 (amended): for a member of the room, pause-game on a paused room
    changes nothing at all (so [paused] stays true and [pausedAt], [pausedBy]
    keep their values) and, the room being started, emits nothing;
    resume-game on a started room that is not paused changes nothing and
    emits nothing; on a room that is not started, resume-game changes nothing
    but answers with an error notice. *)
Theorem pause_resume_idempotent sid rid now st a room :
  getRoom st rid = Some (a, room) →
  is_Some (findPlayer sid (players room)) →
  (paused room = true → (pauseGame sid rid now st).1 = st)
  ∧ (paused room = true → gameStarted room = true →
     pauseGame sid rid now st = (st, []))
  ∧ (paused room = false → gameStarted room = true →
     resumeGame sid rid now st = (st, []))
  ∧ (gameStarted room = false →
     resumeGame sid rid now st
     = (st, reject sid "Cannot resume: Game not started or room not found")).
Proof.
  intros Hroom [[i p] Hp]. unfold pauseGame, resumeGame. rewrite Hroom, Hp.
  repeat split.
  - intros Hpa. rewrite Hpa. by destruct (gameStarted room).
  - intros Hpa Hst. by rewrite Hpa, Hst.
  - intros Hpa Hst. by rewrite Hpa, Hst.
  - intros Hst. by rewrite Hst.
Qed.

Lemma pause_resume_idempotent_witness :
  let st := run (twoPlayersStarted ++ [PauseGame "A" "r" 150]) initialServer in
  pauseGame "B" "r" 160 st = (st, []).
Proof.
  intros st.
  refine (proj1 (proj2 (pause_resume_idempotent "B" "r" 160 st 0
            (default (newRoom "r" noConfig) (roomObjs st !! 0)) _ _)) _ _).
  - vm_compute. reflexivity.
  - vm_compute. eauto.
  - vm_compute. reflexivity.
  - vm_compute. reflexivity.
Defined.

(** ** Starting a game *)


Lemma generateGameBoard_Some rnd a st st1 :
  generateGameBoard rnd a st = Some st1 →
  ∃ room symbols,
    roomObjs st !! a = Some room
    ∧ themeSymbols (theme (config room)) = Some symbols
    ∧ st1 = set_room a
              (set_gameBoard
                 (shuffle rnd (seq (length (cardObjs st))
                    (length (makeCards (gridSize (config room)) symbols))))
                 room)
              (set_cardObjs
                 (cardObjs st ++ makeCards (gridSize (config room)) symbols) st).
Proof.
  unfold generateGameBoard.
  destruct (roomObjs st !! a) as [room|] eqn:Hr; simpl; [|done].
  destruct (themeSymbols (theme (config room))) as [l|] eqn:Hs; simpl; [|done].
  intros [= <-]. eauto.
Qed.



(** ** Room creation *)

(** C6 fails as stated: [createRoom] on an id that is already registered
    replaces the room by an empty one. *)
Lemma createRoom_overwrites :
  let st := run [JoinRoom "A" "r" "Ann"] initialServer in
  (∃ a room, getRoom st "r" = Some (a, room) ∧ playerIds room = ["A"])
  ∧ (∃ a room, getRoom (createRoom "r" noConfig st) "r" = Some (a, room)
       ∧ playerIds room = [])
  ∧ createRoom "r" noConfig st ≠ st.
Proof.
  split; [|split].
  - eexists _, _. split; vm_compute; reflexivity.
  - eexists _, _. split; vm_compute; reflexivity.
  - intros H. apply (f_equal (λ s, length (roomObjs s))) in H.
    vm_compute in H. discriminate.
Qed.

(** C6 (amended): [createRoom] always registers a new room under the id,
    whether or not the id was registered, with the defaults merged with the
    supplied configuration, and leaves other ids alone; join-room calls it
    only for an id that is not registered, so joining an id that exists
    creates nothing. *)
Theorem createRoom_registers_new_room rid c st :
  getRoom (createRoom rid c st) rid
    = Some (length (roomObjs st), newRoom rid c)
  ∧ config (newRoom rid c)
    = {| gridSize := default 4 (arg_gridSize c);
         theme := default "emojis" (arg_theme c);
         maxPlayers := default 2 (arg_maxPlayers c);
         timeLimit := default None (arg_timeLimit c) |}
  ∧ (∀ rid', rid' ≠ rid →
       rooms (createRoom rid c st) !! rid' = rooms st !! rid')
  ∧ (is_Some (rooms st !! rid) → ensureRoom rid st = st)
  ∧ (rooms st !! rid = None → ensureRoom rid st = createRoom rid noConfig st).
Proof.
  repeat split.
  - apply getRoom_createRoom.
  - intros rid' Hne. simpl. by rewrite lookup_insert_ne.
  - intros H. unfold ensureRoom. by rewrite decide_True.
  - intros H. unfold ensureRoom. rewrite decide_False; [done|].
    rewrite H. by intros [? ?].
Qed.

Lemma createRoom_registers_new_room_witness :
  ensureRoom "r" (run [JoinRoom "A" "r" "Ann"] initialServer)
  = run [JoinRoom "A" "r" "Ann"] initialServer.
Proof.
  apply (proj1 (proj2 (proj2 (proj2
           (createRoom_registers_new_room "r" noConfig
              (run [JoinRoom "A" "r" "Ann"] initialServer)))))).
  vm_compute. eauto.
Defined.

(** ** Board generator *)

Lemma swap_Permutation {A} (l : list A) i j : swap l i j ≡ₚ l.
Proof.
  unfold swap. destruct (l !! i) as [ci|] eqn:Hi; [|done].
  destruct (l !! j) as [cj|] eqn:Hj; [|done].
  by apply Permutation_insert_swap.
Qed.

Lemma shuffleFrom_Permutation {A} rnd i (l : list A) : shuffleFrom rnd i l ≡ₚ l.
Proof.
  revert l. induction i as [|i IH]; intros l; simpl; [done|].
  rewrite IH. apply swap_Permutation.
Qed.

Lemma shuffle_Permutation {A} rnd (l : list A) : shuffle rnd l ≡ₚ l.
Proof. apply shuffleFrom_Permutation. Qed.

(** Reading back, in creation order, the objects just added to a store. *)
Lemma omap_lookup_fresh {A} (l2 l1 : list A) :
  omap (λ a, (l1 ++ l2) !! a) (seq (length l1) (length l2)) = l2.
Proof.
  revert l1. induction l2 as [|x l2 IH]; intros l1; simpl; [done|].
  rewrite lookup_app_r by lia. rewrite Nat.sub_diag. simpl. f_equal.
  specialize (IH (l1 ++ [x])). rewrite length_app in IH. simpl in IH.
  rewrite Nat.add_1_r, <-(assoc_L (++)) in IH. exact IH.
Qed.

Lemma occurrences_Permutation x l1 l2 :
  l1 ≡ₚ l2 → occurrences x l1 = occurrences x l2.
Proof. intros H. unfold occurrences. by rewrite H. Qed.

Lemma occurrences_app x l1 l2 :
  occurrences x (l1 ++ l2) = occurrences x l1 + occurrences x l2.
Proof. unfold occurrences. by rewrite filter_app, length_app. Qed.

(** The symbols of the cards built by the pair loop from index [k] on. *)
Lemma symbol_pairs sel k n :
  symbol <$> flat_map (pairOf sel) (seq k n)
  = flat_map (λ i, [sel !! i; sel !! i]) (seq k n).
Proof.
  revert k. induction n as [|n IH]; intros k; simpl; [done|].
  f_equal. f_equal. apply IH.
Qed.

Lemma length_pairs sel k n : length (flat_map (pairOf sel) (seq k n)) = 2 * n.
Proof.
  revert k. induction n as [|n IH]; intros k; simpl; [done|].
  rewrite IH. lia.
Qed.

Lemma occurrences_pairs (sel : list string) s k n :
  occurrences (Some s) (flat_map (λ i, [sel !! i; sel !! i]) (seq k n))
  = 2 * length (filter (λ y, y = s) (take n (drop k sel))).
Proof.
  revert k. induction n as [|n IH]; intros k; [done|].
  change (occurrences (Some s)
            ([sel !! k; sel !! k]
               ++ flat_map (λ i, [sel !! i; sel !! i]) (seq (S k) n))
          = 2 * length (filter (λ y, y = s) (take (S n) (drop k sel)))).
  rewrite occurrences_app, IH.
  destruct (sel !! k) as [x|] eqn:Hk.
  - rewrite (drop_S _ _ _ Hk). simpl take. rewrite filter_cons.
    unfold occurrences. rewrite !filter_cons, filter_nil.
    destruct (decide (x = s)) as [-> | Hne].
    + rewrite !decide_True by done. simpl. lia.
    + rewrite !decide_False by congruence. simpl. lia.
  - apply lookup_ge_None in Hk.
    rewrite (drop_ge sel k), (drop_ge sel (S k)) by lia.
    rewrite !take_nil. done.
Qed.

Lemma elem_of_pairs (sel : list string) x k n :
  x ∈ flat_map (λ i, [sel !! i; sel !! i]) (seq k n) →
  ∃ i, k ≤ i < k + n ∧ x = sel !! i.
Proof.
  revert k. induction n as [|n IH]; intros k; simpl.
  - intros H. by apply elem_of_nil in H.
  - rewrite !elem_of_cons. intros [-> | [-> | H]].
    + exists k. split; [lia|done].
    + exists k. split; [lia|done].
    + apply IH in H as (i & ? & ?). exists i. split; [lia|done].
Qed.

Lemma theme_lists_distinct k l :
  themeSymbols k = Some l → NoDup l ∧ length l = 16.
Proof.
  unfold themeSymbols, themes. intros H.
  assert (l = emojis ∨ l = animals ∨ l = numbers ∨ l = letters) as Hl.
  { repeat case_decide; simplify_eq; auto. }
  destruct Hl as [-> | [-> | [-> | ->]]]; (split; [|reflexivity]);
    apply (bool_decide_unpack _); vm_compute; exact I.
Qed.

Lemma filter_eq_NoDup (l : list string) s :
  NoDup l → s ∈ l → length (filter (λ y, y = s) l) = 1.
Proof.
  induction 1 as [|x l Hx Hnd IH]; intros Hin.
  - by apply elem_of_nil in Hin.
  - rewrite filter_cons. destruct (decide (x = s)) as [-> | Hne].
    + simpl. f_equal.
      destruct (filter (λ y, y = s) l) as [|y k] eqn:Hf; [done|].
      assert (y ∈ filter (λ y, y = s) l) as Hy by (rewrite Hf; left).
      apply list_elem_of_filter in Hy as [-> Hy]. done.
    + apply elem_of_cons in Hin as [-> | Hin]; [done|]. by apply IH.
Qed.

Lemma makeCards_symbols n syms :
  symbol <$> makeCards n syms
  = flat_map (λ i, [take (n * n / 2) syms !! i; take (n * n / 2) syms !! i])
      (seq 0 ((n * n + 1) / 2)).
Proof. unfold makeCards. apply symbol_pairs. Qed.

Lemma makeCards_length n syms :
  length (makeCards n syms) = 2 * ((n * n + 1) / 2).
Proof. unfold makeCards. apply length_pairs. Qed.

(** A defined symbol occurs exactly twice among the cards created. *)
Lemma makeCards_twice n syms s :
  NoDup syms →
  Some s ∈ symbol <$> makeCards n syms →
  occurrences (Some s) (symbol <$> makeCards n syms) = 2 ∧ s ∈ syms.
Proof.
  intros Hnd. rewrite makeCards_symbols. intros Hin.
  rewrite occurrences_pairs, drop_0.
  apply elem_of_pairs in Hin as (i & Hi & Heq). symmetry in Heq.
  set (sel := take (n * n / 2) syms) in *.
  assert (s ∈ take ((n * n + 1) / 2) sel) as Hs.
  { apply elem_of_take. exists i. split; [done|lia]. }
  split.
  - rewrite (filter_eq_NoDup _ s); [done| |done].
    eapply sublist_NoDup; [|apply sublist_take].
    eapply sublist_NoDup; [done|apply sublist_take].
  - eapply subseteq_take, subseteq_take, Hs.
Qed.

(** With an even grid side and enough symbols no card lacks a symbol. *)
Lemma makeCards_defined n syms x :
  Nat.Even n → n * n / 2 ≤ length syms →
  x ∈ symbol <$> makeCards n syms → ∃ s, x = Some s.
Proof.
  intros [m ->] Hlen. rewrite makeCards_symbols. intros Hin.
  apply elem_of_pairs in Hin as (i & Hi & ->).
  replace (2 * m * (2 * m)) with ((2 * m * m) * 2) in * by lia.
  rewrite Nat.div_mul in * by lia.
  replace ((2 * m * m * 2 + 1) / 2) with (2 * m * m) in Hi.
  2:{ apply Nat.div_unique with 1; lia. }
  destruct (take (2 * m * m) syms !! i) as [s|] eqn:Hs; [eauto|].
  apply lookup_ge_None in Hs. rewrite length_take in Hs. lia.
Qed.

(** The board installed by [generateGameBoard] lists, in some order, the
    cards just created. *)
Lemma generated_board rnd a st st' room syms :
  roomObjs st !! a = Some room →
  themeSymbols (theme (config room)) = Some syms →
  generateGameBoard rnd a st = Some st' →
  ∃ room',
    roomObjs st' !! a = Some room'
    ∧ derefCards st' (gameBoard room')
        ≡ₚ makeCards (gridSize (config room)) syms
    ∧ length (gameBoard room')
      = length (makeCards (gridSize (config room)) syms).
Proof.
  intros Ha Hsyms Hgen.
  apply generateGameBoard_Some in Hgen as (room0 & syms0 & Ha' & Hs' & ->).
  rewrite Ha in Ha'. injection Ha' as <-.
  rewrite Hsyms in Hs'. injection Hs' as <-.
  eexists. split; [by eapply lookup_set_room|]. simpl. split.
  - unfold derefCards. simpl. rewrite shuffle_Permutation.
    by rewrite omap_lookup_fresh.
  - rewrite (shuffle_Permutation rnd). apply length_seq.
Qed.

(** C3 fails as stated: on a six by six grid the animals theme has fewer
    symbols (16) than the 18 pairs needed, yet no other theme is substituted
    (the board shows animals), and the four cards built past the end of the
    symbol list carry the same undefined symbol. *)
Lemma six_by_six_board :
  ∃ st' room',
    generateGameBoard keepOrder 0 sixBySix = Some st'
    ∧ roomObjs st' !! 0 = Some room'
    ∧ length animals < (6 * 6) / 2
    ∧ Some "🐶" ∈ boardSymbols st' room'
    ∧ ¬ ("🐶" ∈ emojis)
    ∧ None ∈ boardSymbols st' room'
    ∧ occurrences None (boardSymbols st' room') = 4.
Proof.
  eexists _, _. split; [vm_compute; reflexivity|].
  split; [vm_compute; reflexivity|].
  split; [vm_compute; lia|].
  split; [apply (bool_decide_unpack _); vm_compute; exact I|].
  split; [apply (bool_decide_unpack _); vm_compute; exact I|].
  split; [apply (bool_decide_unpack _); vm_compute; exact I|].
  vm_compute. reflexivity.
Qed.

(** C3 (amended): whenever the generator accepts the theme, the board has an
    even length, which is [gridSize²] for an even [gridSize]; every defined
    symbol on it occurs exactly twice, and when moreover [gridSize² / 2] is at
    most 16 every card carries a defined symbol, so that every symbol value
    of the board occurs exactly twice; the symbols come from the requested
    theme when it is a known one, and from the default theme ([emojis]) when
    the theme name is unknown. *)
Theorem generated_board_pairs rnd a st st' room :
  roomObjs st !! a = Some room →
  generateGameBoard rnd a st = Some st' →
  ∃ room',
    roomObjs st' !! a = Some room'
    ∧ length (boardSymbols st' room') = length (gameBoard room')
    ∧ Nat.Even (length (gameBoard room'))
    ∧ (Nat.Even (gridSize (config room)) →
       length (gameBoard room') = gridSize (config room) * gridSize (config room))
    ∧ (∀ s, Some s ∈ boardSymbols st' room' →
            occurrences (Some s) (boardSymbols st' room') = 2)
    ∧ (Nat.Even (gridSize (config room)) →
       (gridSize (config room) * gridSize (config room)) / 2 ≤ 16 →
       ¬ (None ∈ boardSymbols st' room')
       ∧ ∀ x, x ∈ boardSymbols st' room' →
              (∃ s, x = Some s) ∧ occurrences x (boardSymbols st' room') = 2)
    ∧ (∀ l, themes (theme (config room)) = OwnSymbols l →
            ∀ s, Some s ∈ boardSymbols st' room' → s ∈ l)
    ∧ (themes (theme (config room)) = Missing →
       ∀ s, Some s ∈ boardSymbols st' room' → s ∈ emojis).
Proof.
  intros Ha Hgen.
  destruct (generateGameBoard_Some _ _ _ _ Hgen) as (r0 & syms & Ha0 & Hsyms & _).
  rewrite Ha in Ha0. injection Ha0 as <-.
  destruct (generated_board _ _ _ _ _ _ Ha Hsyms Hgen) as (room' & Ha' & Hperm & Hlen).
  destruct (theme_lists_distinct _ _ Hsyms) as [Hnd H16].
  set (n := gridSize (config room)) in *.
  assert (boardSymbols st' room' ≡ₚ symbol <$> makeCards n syms) as Hsym.
  { unfold boardSymbols. by rewrite Hperm. }
  assert (∀ s, Some s ∈ boardSymbols st' room' →
            occurrences (Some s) (boardSymbols st' room') = 2 ∧ s ∈ syms) as Htwice.
  { intros s Hs. rewrite (occurrences_Permutation _ _ _ Hsym).
    apply makeCards_twice; [done|]. by rewrite <-Hsym. }
  exists room'. split; [done|]. split.
  { by rewrite Hsym, length_fmap, Hlen. }
  rewrite Hlen, makeCards_length. split.
  { by eexists. }
  split.
  { intros [m Hm]. rewrite Hm.
    replace (2 * m * (2 * m) + 1) with (1 + (2 * m * m) * 2) by lia.
    rewrite Nat.div_add by lia. simpl (1 `div` 2). lia. }
  split; [intros s Hs; by apply Htwice|].
  split.
  { intros Hev Hle.
    assert (∀ x, x ∈ boardSymbols st' room' → ∃ s, x = Some s) as Hdef.
    { intros x Hx. apply (makeCards_defined n syms x Hev); [lia|].
      by rewrite <-Hsym. }
    split; [by intros [s [=]]%Hdef|].
    intros x Hx. destruct (Hdef x Hx) as [s ->].
    split; [by exists s | by apply Htwice]. }
  unfold themeSymbols in Hsyms. split.
  - intros l Hl s Hs. rewrite Hl in Hsyms. injection Hsyms as ->.
    by apply Htwice.
  - intros Hl s Hs. rewrite Hl in Hsyms. injection Hsyms as <-.
    by apply Htwice.
Qed.

Lemma generated_board_pairs_witness :
  let st := run [JoinRoom "A" "r" "Ann"; JoinRoom "B" "r" "Bob"] initialServer in
  let st' := default st (generateGameBoard keepOrder 0 st) in
  ∃ room',
    roomObjs st' !! 0 = Some room'
    ∧ length (gameBoard room') = 4 * 4
    ∧ ¬ (None ∈ boardSymbols st' room')
    ∧ ∀ s, Some s ∈ boardSymbols st' room' →
           occurrences (Some s) (boardSymbols st' room') = 2.
Proof.
  intros st st'.
  destruct (generated_board_pairs keepOrder 0 st st'
              (default (newRoom "r" noConfig) (roomObjs st !! 0)))
    as (room' & Hr & _ & _ & Hlen & Htwice & Hall & _).
  - vm_compute. reflexivity.
  - vm_compute. reflexivity.
  - exists room'. split; [exact Hr|]. split; [|split; [|exact Htwice]].
    + apply Hlen. exists 2. vm_compute. reflexivity.
    + apply Hall; [exists 2|]; vm_compute; [reflexivity|lia].
Defined.

(** ** The score table *)

Lemma score_keys_set k v sc k' :
  k' ∈ score_keys (score_set k v sc) ↔ k' = k ∨ k' ∈ score_keys sc.
Proof.
  unfold score_keys. induction sc as [|[k0 v0] sc IH]; simpl.
  - rewrite list_elem_of_singleton. split; [auto|]. intros [?|H]; [done|].
    by apply elem_of_nil in H.
  - destruct (decide (k0 = k)) as [-> | Hne]; simpl.
    + rewrite elem_of_cons. tauto.
    + rewrite !elem_of_cons, IH. tauto.
Qed.

Lemma score_set_entries k v sc k' v' :
  (k', v') ∈ score_set k v sc → v' = v ∨ (k', v') ∈ sc.
Proof.
  induction sc as [|[k0 v0] sc IH]; simpl.
  - rewrite list_elem_of_singleton. intros [= -> ->]. by left.
  - destruct (decide (k0 = k)) as [-> | Hne]; rewrite !elem_of_cons.
    + intros [[= -> ->] | H]; auto.
    + intros [[= -> ->] | H]; [auto|]. apply IH in H as [?|?]; auto.
Qed.

Lemma score_get_Some k sc :
  k ∈ score_keys sc → ∃ v, score_get k sc = Some v ∧ (k, v) ∈ sc.
Proof.
  unfold score_keys. induction sc as [|[k0 v0] sc IH]; simpl.
  - intros H. by apply elem_of_nil in H.
  - rewrite elem_of_cons. intros Hin.
    destruct (decide (k0 = k)) as [-> | Hne].
    + exists v0. split; [done|left].
    + destruct Hin as [-> | Hin]; [done|].
      destruct (IH Hin) as (v & ? & ?). exists v. split; [done|by right].
Qed.

Lemma score_incr_keys k sc k' :
  k' ∈ score_keys (score_incr k sc) ↔ k' = k ∨ k' ∈ score_keys sc.
Proof. apply score_keys_set. Qed.

Lemma score_incr_numeric k sc :
  k ∈ score_keys sc → numericScores sc → numericScores (score_incr k sc).
Proof.
  intros Hk Hnum k' v' Hin. unfold score_incr in Hin.
  destruct (score_get_Some _ _ Hk) as (v & Hv & Hkv). rewrite Hv in Hin.
  simpl in Hin. apply score_set_entries in Hin as [-> | Hin].
  - specialize (Hnum _ _ Hkv). by destruct v.
  - by eapply Hnum.
Qed.

Lemma playerAt_elem ps i p : playerAt ps i = Some p → p ∈ ps.
Proof.
  destruct i as [n|]; simpl; [|done]. apply list_elem_of_lookup_2.
Qed.

Lemma findPlayer_Some sid ps i p :
  findPlayer sid ps = Some (i, p) → ps !! i = Some p ∧ player_id p = sid.
Proof.
  unfold findPlayer. intros H. apply list_find_Some in H as (? & ? & _). done.
Qed.

Lemma playerIds_markDisconnected i p (ps : list Player) :
  ps !! i = Some p →
  player_id <$> markDisconnected i p ps = player_id <$> ps.
Proof.
  intros H. unfold markDisconnected. rewrite list_fmap_insert. simpl.
  apply list_insert_id. by rewrite list_lookup_fmap, H.
Qed.

(** ** Shape of the transitions *)

Lemma kept_same_scores e st a room room' :
  consistent st →
  roomObjs st !! a = Some room →
  room_id room' = room_id room →
  (gameStarted room = true → gameStarted room' = true) →
  (paused room = true →
   paused room' = true
   ∨ ∃ sid rid now, e = ResumeGame sid rid now ∧ rooms st !! rid = Some a) →
  (∀ k, k ∈ playerIds room' → k ∈ playerIds room) →
  scores room' = scores room →
  kept e st a room room'.
Proof.
  intros Hc Ha Hid Hst Hpa Hpl Hsc. unfold kept, scoreIds. rewrite Hsc.
  repeat split; try done.
  - intros k Hk. by eapply (cons_scores _ Hc), Hpl.
  - by eapply (cons_numeric _ Hc).
Qed.

Ltac untouched :=
  apply shape_same; [reflexivity | reflexivity | by intros ? ?].

Lemma flipCard_shape sid rid cardId st :
  consistent st →
  stepShape (FlipCard sid rid cardId) st (flipCard sid rid cardId st).1.
Proof.
  intros Hc. unfold flipCard.
  destruct (getRoom st rid) as [[a room]|] eqn:Hroom;
    [|untouched].
  apply getRoom_Some in Hroom as [Hrid Ha].
  destruct (gameStarted room); simpl; [|untouched].
  destruct (paused room) eqn:Hpa; simpl; [untouched|].
  destruct (playerAt (players room) (currentPlayer room)) as [cur|] eqn:Hcur;
    [|untouched].
  destruct (decide (player_id cur ≠ sid)); [untouched|].
  destruct (findCard (cardObjs st) (gameBoard room) cardId) as [[c card]|];
    [|untouched].
  destruct (matched card || flipped card); [untouched|].
  set (room1 := set_flippedCards (flippedCards room ++ [c]) room).
  assert (kept (FlipCard sid rid cardId) st a room room1) as Hk.
  { apply kept_same_scores; try done. intros Hp. by left. }
  assert (player_id cur ∈ scoreIds room1) as Hin.
  { apply (cons_scores _ Hc a room Ha). unfold playerIds.
    apply list_elem_of_fmap. exists cur. split; [done|].
    by eapply playerAt_elem. }
  clearbody room1.
  destruct (flippedCards room ++ [c]) as [|c1 [|c2 [|c3 l]]];
    (eapply shape_update; [exact Ha | reflexivity | exact Hk | by left |]);
    simpl; intros t Ht; auto.
  apply elem_of_app in Ht as [Ht|Ht]; [by left|].
  apply list_elem_of_singleton in Ht as ->. right. done.
Qed.

Lemma startGame_shape sid rid now rnd st :
  consistent st →
  stepShape (StartGame sid rid now rnd) st (startGame sid rid now rnd st).1.
Proof.
  intros Hc. unfold startGame.
  destruct (getRoom st rid) as [[a room]|] eqn:Hroom;
    [|untouched].
  apply getRoom_Some in Hroom as [Hrid Ha].
  destruct (findPlayer sid (players room)); [|untouched].
  destruct (generateGameBoard rnd a st) as [st1|] eqn:Hgen;
    [|untouched].
  apply generateGameBoard_Some in Hgen as (room0 & symbols & Ha' & Hsym & ->).
  rewrite Ha in Ha'. injection Ha' as <-.
  erewrite lookup_set_room by exact Ha.
  eapply shape_update; [exact Ha | | | by left |].
  - simpl. by rewrite list_insert_insert_eq.
  - apply kept_same_scores; try done. intros Hp. by left.
  - simpl. auto.
Qed.

Lemma pauseGame_shape sid rid now st :
  consistent st →
  stepShape (PauseGame sid rid now) st (pauseGame sid rid now st).1.
Proof.
  intros Hc. unfold pauseGame.
  destruct (getRoom st rid) as [[a room]|] eqn:Hroom;
    [|untouched].
  apply getRoom_Some in Hroom as [Hrid Ha].
  destruct (gameStarted room); simpl; [|untouched].
  destruct (findPlayer sid (players room)) as [[i p]|];
    [|untouched].
  destruct (paused room); [untouched|].
  eapply shape_update; [exact Ha | reflexivity | | by left | simpl; auto].
  apply kept_same_scores; try done. intros _. by left.
Qed.

Lemma resumeGame_shape sid rid now st :
  consistent st →
  stepShape (ResumeGame sid rid now) st (resumeGame sid rid now st).1.
Proof.
  intros Hc. unfold resumeGame.
  destruct (getRoom st rid) as [[a room]|] eqn:Hroom;
    [|untouched].
  apply getRoom_Some in Hroom as [Hrid Ha].
  destruct (gameStarted room); simpl; [|untouched].
  destruct (findPlayer sid (players room)) as [[i p]|];
    [|untouched].
  destruct (paused room); [|untouched].
  eapply shape_update; [exact Ha | reflexivity | | by left | simpl; auto].
  apply kept_same_scores; try done. intros _. right. eauto.
Qed.

Lemma playerIds_delete (i : nat) (ps : list Player) (k : string) :
  k ∈ player_id <$> delete i ps → k ∈ player_id <$> ps.
Proof.
  intros (p & -> & Hp)%list_elem_of_fmap. apply list_elem_of_fmap_2.
  eapply elem_of_sublist; [exact Hp | apply sublist_delete].
Qed.

Lemma leaveRoom_shape sid rid st :
  consistent st →
  stepShape (LeaveRoom sid rid) st (leaveRoom sid rid st).1.
Proof.
  intros Hc. unfold leaveRoom.
  destruct (getRoom st rid) as [[a room]|] eqn:Hroom; [|untouched].
  apply getRoom_Some in Hroom as [Hrid Ha].
  destruct (findPlayer sid (players room)) as [[i p]|]; [|untouched].
  assert (kept (LeaveRoom sid rid) st a room
            (set_players (delete i (players room)) room)) as Hk.
  { apply kept_same_scores; try done.
    - intros Hp. by left.
    - intros k. apply playerIds_delete. }
  simpl. case_decide;
    (eapply shape_update; [exact Ha | reflexivity | exact Hk | | simpl; auto]).
  - right. by exists rid.
  - by left.
Qed.

Lemma disconnect_shape sid now st :
  consistent st →
  stepShape (Disconnect sid now) st (disconnect sid now st).1.
Proof.
  intros Hc. unfold disconnect.
  destruct (socketPlayers st !! sid) as [pd|]; [|untouched].
  destruct (getRoom st (roomId pd)) as [[a room]|] eqn:Hroom; [|untouched].
  apply getRoom_Some in Hroom as [Hrid Ha].
  destruct (findPlayer sid (players room)) as [[i p]|] eqn:Hp; [|untouched].
  apply findPlayer_Some in Hp as [Hi _].
  simpl. destruct (gameStarted room && negb (paused room));
    (eapply shape_update; [exact Ha | reflexivity | | by left | simpl; auto]);
    (apply kept_same_scores; try done;
     [ intros Hpa; by left
     | intros k; unfold playerIds; simpl;
       by rewrite (playerIds_markDisconnected _ _ _ Hi) ]).
Qed.

Lemma insert_last {A} (l : list A) x y : <[length l := x]> (l ++ [y]) = l ++ [x].
Proof. rewrite insert_app_r_alt by lia. by rewrite Nat.sub_diag. Qed.

Lemma numericScores_set k sc :
  numericScores sc → numericScores (score_set k (Num 0) sc).
Proof.
  intros H k' v' Hin. apply score_set_entries in Hin as [-> | Hin]; [done|].
  by eapply H.
Qed.

(** The room after [push(player)] and [scores[player.id] = 0]. *)
Lemma joined_room_scores p room k :
  (∀ k, k ∈ playerIds room → k ∈ scoreIds room) →
  k ∈ player_id <$> (players room ++ [p]) →
  k ∈ score_keys (score_set (player_id p) (Num 0) (scores room)).
Proof.
  intros H. rewrite fmap_app, elem_of_app, score_keys_set. simpl.
  rewrite list_elem_of_singleton. intros [Hk | ->]; [right; by apply H|by left].
Qed.

Lemma joinRoom_shape sid rawRoomId rawName st :
  consistent st →
  stepShape (JoinRoom sid rawRoomId rawName) st
    (joinRoom sid rawRoomId rawName st).1.
Proof.
  intros Hc. unfold joinRoom.
  set (rid := sanitizeRoomId rawRoomId). set (pname := sanitizePlayerName rawName).
  case_decide; [untouched|]. unfold ensureRoom.
  destruct (decide (is_Some (rooms st !! rid))) as [Hreg|Hreg].
  - unfold addPlayerToRoom.
    destruct (getRoom st rid) as [[a room]|] eqn:Hroom; [|untouched].
    apply getRoom_Some in Hroom as [Hrid Ha].
    case_decide; [untouched|].
    match goal with
    | |- stepShape _ _ (match ?g with _ => _ end).1 => destruct g as [[? ?]|]
    end;
      (eapply shape_update; [exact Ha | reflexivity | | by left | simpl; auto]);
      (repeat split; simpl; try done;
       [ intros Hp; by left
       | intros k; unfold scoreIds; simpl; rewrite score_keys_set; auto
       | intros k; unfold playerIds, scoreIds; simpl;
         apply joined_room_scores, (cons_scores _ Hc _ _ Ha)
       | apply numericScores_set, (cons_numeric _ Hc _ _ Ha) ]).
  - unfold addPlayerToRoom. rewrite getRoom_createRoom. simpl.
    match goal with
    | |- stepShape _ _ (match ?g with _ => _ end).1 => destruct g as [[? ?]|]
    end;
      (eapply (shape_create _ _ _ rid);
       [ simpl; apply insert_last | reflexivity | reflexivity | reflexivity
       | intros k; unfold playerIds, scoreIds; simpl;
         rewrite !list_elem_of_singleton; done
       | intros k v; simpl; rewrite list_elem_of_singleton; by intros [= _ ->] ]).
Qed.

Lemma fireTimer_shape now st :
  consistent st →
  stepShape (TimerFires now) st (fireTimer now st).1.
Proof.
  intros Hc. unfold fireTimer.
  destruct (pending st) as [|t rest] eqn:Hp; [untouched|].
  destruct (cons_timers _ Hc t) as (room & Ha & Hin); [rewrite Hp; left|].
  unfold resolve. change (roomObjs (set_pending rest st)) with (roomObjs st).
  rewrite Ha.
  assert (∀ t', t' ∈ rest → t' ∈ pending st) as Hrest.
  { intros t' Ht'. rewrite Hp. by right. }
  destruct (decide (symbolAt (set_pending rest st) (t_card1 t)
                    = symbolAt (set_pending rest st) (t_card2 t))).
  - assert (kept (TimerFires now) st (t_room t) room
              (set_moves (S (moves room))
                 (set_flippedCards []
                    (set_matchedPairs (S (matchedPairs room))
                       (set_scores (score_incr (t_playerId t) (scores room))
                          room))))) as Hk.
    { repeat split; simpl; try done.
      - intros Hpa. by left.
      - intros k. unfold scoreIds. simpl. rewrite score_incr_keys. auto.
      - intros k Hk. unfold scoreIds. simpl. rewrite score_incr_keys. right.
        by apply (cons_scores _ Hc _ _ Ha).
      - apply score_incr_numeric; [done|]. by apply (cons_numeric _ Hc _ _ Ha). }
    case_decide; simpl;
      (eapply shape_update;
       [ exact Ha | simpl; by rewrite !roomObjs_updCard | exact Hk
       | left; simpl; by rewrite !rooms_updCard
       | intros t' Ht'; left; apply Hrest; revert Ht'; simpl;
         by rewrite !pending_updCard ]).
  - simpl. eapply shape_update;
      [ exact Ha | simpl; by rewrite !roomObjs_updCard |
      | left; simpl; by rewrite !rooms_updCard
      | intros t' Ht'; left; apply Hrest; revert Ht'; simpl;
        by rewrite !pending_updCard ].
    apply kept_same_scores; try done. intros Hpa. by left.
Qed.

Lemma handle_shape e st : consistent st → stepShape e st (handle e st).1.
Proof.
  destruct e; simpl; eauto using joinRoom_shape, startGame_shape,
    flipCard_shape, fireTimer_shape, pauseGame_shape, resumeGame_shape,
    leaveRoom_shape, disconnect_shape.
Qed.

(** A room object is never dropped from the store, and what [kept] lists
    carries over to the next state. *)
Lemma step_room e st a room :
  consistent st →
  roomObjs st !! a = Some room →
  ∃ room', roomObjs (handle e st).1 !! a = Some room'
           ∧ (room' = room ∨ kept e st a room room').
Proof.
  intros Hc Ha. destruct (handle_shape e st Hc)
    as [Hobjs _ _ | b r r' Hb Hobjs Hk _ _ | rid r' Hobjs _ _ _ _ _];
    rewrite Hobjs.
  - eauto.
  - destruct (decide (b = a)) as [-> | Hne].
    + exists r'. rewrite list_lookup_insert_eq by (by eapply lookup_lt_Some).
      split; [done|]. right. by simplify_eq.
    + exists room. rewrite list_lookup_insert_ne by done. auto.
  - exists room. split; [|by left]. by apply lookup_app_l_Some.
Qed.

Lemma consistent_initial : consistent initialServer.
Proof.
  split; simpl.
  - intros a room H. by rewrite lookup_nil in H.
  - intros a room H. by rewrite lookup_nil in H.
  - intros t H. by apply elem_of_nil in H.
  - intros rid a H. by rewrite lookup_empty in H.
Qed.

Lemma consistent_step e st : consistent st → consistent (handle e st).1.
Proof.
  intros Hc. destruct (handle_shape e st Hc)
    as [Hobjs Hreg Hpend | b r r' Hb Hobjs Hk Hreg Hpend
        | rid r' Hobjs Hreg Hpend Hid Hsc Hnum].
  - split; rewrite ?Hobjs, ?Hreg.
    + apply (cons_scores _ Hc).
    + apply (cons_numeric _ Hc).
    + intros t Ht. by apply (cons_timers _ Hc), Hpend.
    + apply (cons_rooms _ Hc).
  - destruct Hk as (Hid & _ & _ & Hkeys & Hsc & Hnum).
    assert (b < length (roomObjs st)) as Hlt by (by eapply lookup_lt_Some).
    split; rewrite ?Hobjs.
    + intros a room Ha k. destruct (decide (b = a)) as [-> | Hne].
      * rewrite list_lookup_insert_eq in Ha by done. injection Ha as <-. auto.
      * rewrite list_lookup_insert_ne in Ha by done.
        by apply (cons_scores _ Hc a).
    + intros a room Ha. destruct (decide (b = a)) as [-> | Hne].
      * rewrite list_lookup_insert_eq in Ha by done. by injection Ha as <-.
      * rewrite list_lookup_insert_ne in Ha by done.
        by apply (cons_numeric _ Hc a).
    + intros t Ht. destruct (Hpend t Ht) as [Hold | [<- Hin]].
      * destruct (cons_timers _ Hc t Hold) as (room & Ha & Hin).
        destruct (decide (b = t_room t)) as [-> | Hne].
        -- exists r'. rewrite list_lookup_insert_eq by done. split; [done|].
           apply Hkeys. by simplify_eq.
        -- exists room. by rewrite list_lookup_insert_ne.
      * exists r'. by rewrite list_lookup_insert_eq.
    + intros rid a Hrid.
      assert (rooms st !! rid = Some a) as Hold.
      { destruct Hreg as [Hreg | [rid' Hreg]]; rewrite Hreg in Hrid; [done|].
        by apply lookup_delete_Some in Hrid as [_ ?]. }
      destruct (cons_rooms _ Hc rid a Hold) as (room & Ha & Hroom).
      destruct (decide (b = a)) as [-> | Hne].
      * exists r'. rewrite list_lookup_insert_eq by done. split; [done|].
        by simplify_eq.
      * exists room. by rewrite list_lookup_insert_ne.
  - split; rewrite ?Hobjs, ?Hreg, ?Hpend.
    + intros a room Ha. apply lookup_app_Some in Ha as [Ha | [_ Ha]].
      * by apply (cons_scores _ Hc a).
      * apply list_lookup_singleton_Some in Ha as [_ <-]. done.
    + intros a room Ha. apply lookup_app_Some in Ha as [Ha | [_ Ha]].
      * by apply (cons_numeric _ Hc a).
      * apply list_lookup_singleton_Some in Ha as [_ <-]. done.
    + intros t Ht. destruct (cons_timers _ Hc t Ht) as (room & Ha & Hin).
      exists room. split; [by apply lookup_app_l_Some|done].
    + intros rid' a Hrid. apply lookup_insert_Some in Hrid
        as [[<- <-] | [Hne Hrid]].
      * exists r'. split; [|done].
        rewrite lookup_app_r by lia. by rewrite Nat.sub_diag.
      * destruct (cons_rooms _ Hc rid' a Hrid) as (room & Ha & Hroom).
        exists room. split; [by apply lookup_app_l_Some|done].
Qed.

Lemma reachable_consistent st : reachable st → consistent st.
Proof.
  induction 1 as [|e st _ IH]; [apply consistent_initial|].
  by apply consistent_step.
Qed.

Lemma reachable_run evs st : reachable st → reachable (run evs st).
Proof.
  revert st. induction evs as [|e evs IH]; intros st Hst; [done|].
  apply IH. by constructor.
Qed.

(** ** Players and scores *)

(** C4 fails as stated: leave-room removes the player from the list but
    keeps the score entry. *)
Lemma departed_player_keeps_score :
  let st := run [JoinRoom "A" "r" "Ann"; JoinRoom "B" "r" "Bob"; LeaveRoom "A" "r"]
              initialServer in
  reachable st
  ∧ ∃ a room, getRoom st "r" = Some (a, room)
      ∧ playerIds room = ["B"] ∧ scoreIds room = ["A"; "B"]
      ∧ "A" ∈ scoreIds room ∧ ¬ ("A" ∈ playerIds room).
Proof.
  split; [apply reachable_run, reach_init|].
  eexists _, _. split; [vm_compute; reflexivity|].
  split; [reflexivity|]. split; [reflexivity|].
  split; apply (bool_decide_unpack _); vm_compute; exact I.
Qed.

(** C4 (amended): in every reachable state every player listed in a room has
    a score entry; [addPlayerToRoom] keeps the two sets of ids equal when
    they are; leave-room takes the player out of the list and leaves the
    score table alone, so only the inclusion survives it. *)
Theorem players_have_scores :
  (∀ st a room, reachable st → roomObjs st !! a = Some room →
     ∀ k, k ∈ playerIds room → k ∈ scoreIds room)
  ∧ (∀ st rid p a room,
       getRoom st rid = Some (a, room) →
       (∀ k, k ∈ playerIds room ↔ k ∈ scoreIds room) →
       ∃ room', roomObjs (addPlayerToRoom rid p st).1 !! a = Some room'
                ∧ ∀ k, k ∈ playerIds room' ↔ k ∈ scoreIds room')
  ∧ (∀ st sid rid a room i p,
       getRoom st rid = Some (a, room) →
       findPlayer sid (players room) = Some (i, p) →
       ∃ room', roomObjs (leaveRoom sid rid st).1 !! a = Some room'
                ∧ players room' = delete i (players room)
                ∧ scores room' = scores room).
Proof.
  split; [|split].
  - intros st a room Hst. apply (cons_scores _ (reachable_consistent _ Hst)).
  - intros st rid p a room Hroom Heq. unfold addPlayerToRoom. rewrite Hroom.
    apply getRoom_Some in Hroom as [_ Ha].
    case_decide; simpl; [eauto|].
    eexists. split; [apply list_lookup_insert_eq; by eapply lookup_lt_Some|].
    intros k. unfold playerIds, scoreIds. simpl.
    rewrite fmap_app, elem_of_app, score_keys_set. simpl.
    rewrite list_elem_of_singleton. specialize (Heq k).
    unfold playerIds, scoreIds in Heq. tauto.
  - intros st sid rid a room i p Hroom Hp. unfold leaveRoom.
    rewrite Hroom, Hp. apply getRoom_Some in Hroom as [_ Ha].
    eexists. split.
    + simpl. case_decide; simpl; apply list_lookup_insert_eq;
        by eapply lookup_lt_Some.
    + done.
Qed.

Lemma players_have_scores_witness :
  "B" ∈ scoreIds
          (default (newRoom "r" noConfig)
             (roomObjs
                (run [JoinRoom "A" "r" "Ann"; JoinRoom "B" "r" "Bob";
                      LeaveRoom "A" "r"] initialServer) !! 0)).
Proof.
  apply (proj1 players_have_scores
           (run [JoinRoom "A" "r" "Ann"; JoinRoom "B" "r" "Bob";
                 LeaveRoom "A" "r"] initialServer) 0).
  - apply reachable_run, reach_init.
  - vm_compute. reflexivity.
  - apply (bool_decide_unpack _). vm_compute. exact I.
Defined.

(** ** Cards pending resolution *)

(** C1 is not met by the code: with two cards already in [flippedCards] and
    their callback scheduled, a third flip by the player to move is accepted
    and broadcast; three cards are then face up and unmatched.  When the
    callback runs it clears the buffer, and the third card stays face up
    although no resolution is pending for it. *)
Theorem third_flip_accepted :
  let st2 := run (twoPlayersStarted ++ [FlipCard "A" "r" 0; FlipCard "A" "r" 2])
               initialServer in
  let st3 := run threeFlips initialServer in
  let st4 := run (threeFlips ++ [TimerFires 2000]) initialServer in
  reachable st2
  ∧ (flippedCards <$> roomObjs st2 !! 0) = Some [0; 2]
  ∧ length (pending st2) = 1
  ∧ flipCard "A" "r" 1 st2
    = (st3, [(ToRoom "r", CardFlipped 1 (Some "🎮") "A")])
  ∧ (card_id <$> from_option (faceUpUnmatched st3) [] (roomObjs st3 !! 0))
    = [0; 1; 2]
  ∧ (flippedCards <$> roomObjs st4 !! 0) = Some []
  ∧ pending st4 = []
  ∧ (card_id <$> from_option (faceUpUnmatched st4) [] (roomObjs st4 !! 0)) = [1].
Proof.
  split; [apply reachable_run, reach_init|].
  split; [vm_compute; reflexivity|]. split; [vm_compute; reflexivity|].
  split; [vm_compute; reflexivity|]. split; [vm_compute; reflexivity|].
  split; [vm_compute; reflexivity|]. split; vm_compute; reflexivity.
Qed.

(** ** The winner *)

(** The reduction over the keys returns the last key, in the order of the
    keys, whose score is maximal. *)
Lemma foldl_best sc ks k0 :
  (∀ k, k ∈ k0 :: ks → ∃ n, score_val sc k = Num n) →
  ∃ i,
    (k0 :: ks) !! i
    = Some (foldl (λ a b, if js_gt (score_val sc a) (score_val sc b) then a else b)
              k0 ks)
    ∧ (∀ j k, (k0 :: ks) !! j = Some k →
         scoreOf sc k
         ≤ scoreOf sc
             (foldl (λ a b, if js_gt (score_val sc a) (score_val sc b) then a else b)
                k0 ks))
    ∧ (∀ j k, i < j → (k0 :: ks) !! j = Some k →
         scoreOf sc k
         < scoreOf sc
             (foldl (λ a b, if js_gt (score_val sc a) (score_val sc b) then a else b)
                k0 ks)).
Proof.
  revert k0. induction ks as [|k1 ks IH]; intros k0 Hnum.
  - exists 0. cbn [foldl]. split; [done|]. split.
    + intros [|j] k Hk; simpl in Hk; [by simplify_eq|].
      by rewrite lookup_nil in Hk.
    + intros [|j] k Hj Hk; [lia|]. simpl in Hk. by rewrite lookup_nil in Hk.
  - cbn [foldl].
    set (a := if js_gt (score_val sc k0) (score_val sc k1) then k0 else k1).
    destruct (Hnum k0) as [x Hx]; [left|].
    destruct (Hnum k1) as [y Hy]; [right; left|].
    assert (scoreOf sc k0 = x) as Hx' by (unfold scoreOf; by rewrite Hx).
    assert (scoreOf sc k1 = y) as Hy' by (unfold scoreOf; by rewrite Hy).
    assert ((a = k0 ∧ y < x) ∨ (a = k1 ∧ x ≤ y)) as Ha.
    { subst a. rewrite Hx, Hy. simpl.
      case_bool_decide; [left|right]; (split; [done|lia]). }
    destruct (IH a) as (i' & Hi' & Hb & Hc).
    { intros k Hk. apply Hnum. apply elem_of_cons in Hk as [-> | Hk].
      - destruct Ha as [[-> _] | [-> _]]; [left | right; left].
      - by do 2 right. }
    set (r := foldl _ a ks) in *. clearbody r. clearbody a.
    assert (scoreOf sc a ≤ scoreOf sc r) as Har by (by apply (Hb 0)).
    assert (scoreOf sc k0 ≤ scoreOf sc a ∧ scoreOf sc k1 ≤ scoreOf sc a) as [H0 H1].
    { destruct Ha as [[-> ?] | [-> ?]]; lia. }
    destruct i' as [|i'].
    + simpl in Hi'. injection Hi' as Hr.
      destruct Ha as [[Ha Hlt] | [Ha Hle]].
      * exists 0. split; [simpl; congruence|]. split.
        -- intros [|[|j]] k Hk; simpl in Hk; simplify_eq; try lia.
           by apply (Hb (S j)).
        -- intros [|[|j]] k Hj Hk; simpl in Hk; simplify_eq; try lia.
           apply (Hc (S j)); [lia|done].
      * exists 1. split; [simpl; congruence|]. split.
        -- intros [|[|j]] k Hk; simpl in Hk; simplify_eq; try lia.
           by apply (Hb (S j)).
        -- intros [|[|j]] k Hj Hk; simpl in Hk; simplify_eq; try lia.
           apply (Hc (S j)); [lia|done].
    + exists (S (S i')). split; [done|]. split.
      * intros [|[|j]] k Hk; simpl in Hk; simplify_eq; try lia.
        by apply (Hb (S j)).
      * intros [|[|j]] k Hj Hk; simpl in Hk; simplify_eq; try lia.
        apply (Hc (S j)); [lia|done].
Qed.

Lemma numeric_keys sc k :
  numericScores sc → k ∈ score_keys sc → ∃ n, score_val sc k = Num n.
Proof.
  intros Hnum Hk. destruct (score_get_Some _ _ Hk) as (v & Hv & Hin).
  unfold score_val. rewrite Hv. simpl. specialize (Hnum _ _ Hin).
  destruct v; [eauto|done].
Qed.

Lemma bestKey_spec sc :
  numericScores sc → sc ≠ [] →
  ∃ k i,
    bestKey sc = Some k
    ∧ score_keys sc !! i = Some k
    ∧ (∀ j k', score_keys sc !! j = Some k' → scoreOf sc k' ≤ scoreOf sc k)
    ∧ (∀ j k', i < j → score_keys sc !! j = Some k' →
               scoreOf sc k' < scoreOf sc k).
Proof.
  intros Hnum Hne. unfold bestKey.
  destruct (score_keys sc) as [|k0 ks] eqn:Hkeys.
  { destruct sc; [done|discriminate]. }
  destruct (foldl_best sc ks k0) as (i & Hi & Hb & Hc).
  { intros k Hk. apply numeric_keys; [done|]. by rewrite Hkeys. }
  eauto 10.
Qed.

Lemma findPlayer_elem k (ps : list Player) :
  k ∈ player_id <$> ps →
  ∃ i p, findPlayer k ps = Some (i, p) ∧ player_id p = k ∧ p ∈ ps.
Proof.
  intros (p & -> & Hp)%list_elem_of_fmap. unfold findPlayer.
  destruct (list_find_elem_of (λ q, player_id q = player_id p) ps p Hp eq_refl)
    as [[i q] Hq].
  exists i, q. split; [done|].
  apply list_find_Some in Hq as (Hi & Hid & _). split; [done|].
  by eapply list_elem_of_lookup_2.
Qed.

(** C7 is not met by the code: the winner is looked up among the players
    still listed, under the best key of the score table, and leave-room
    removes a player from the list without removing its score.  Player A
    matches seven pairs, turns the last two cards over and leaves; when the
    callback resolves that pair the game ends with the scores A: 8 and
    B: 0, and the game-ended broadcast names no winner at all although a
    score is maximal. *)
Lemma winner_undefined_after_leave :
  let st := run leaderLeaves initialServer in
  reachable st
  ∧ (fireTimer 16000 st).2
    = [ (ToRoom "r", MatchFound 14 15 "A" [("A", Num 8); ("B", Num 0)]);
        (ToRoom "r", GameEnded [("A", Num 8); ("B", Num 0)] 15900 7 None) ].
Proof.
  split; [apply reachable_run, reach_init|]. vm_compute. reflexivity.
Qed.

(** How the winner is chosen: when the callback ends the game, every score
    is a number and the id chosen is the last key of the score table, in
    insertion order, whose score is maximal, hence the strictly highest
    scorer when there is one; the winner broadcast is the first player of the
    list with that id, and there is one whenever that id still belongs to a
    listed player. *)
Theorem winner_has_best_score now st target sc duration mv winner :
  reachable st →
  (target, GameEnded sc duration mv winner) ∈ (fireTimer now st).2 →
  ∃ t room' k i,
    head (pending st) = Some t
    ∧ roomObjs (fireTimer now st).1 !! t_room t = Some room'
    ∧ sc = scores room'
    ∧ numericScores sc
    ∧ bestKey sc = Some k
    ∧ score_keys sc !! i = Some k
    ∧ (∀ j k', score_keys sc !! j = Some k' → scoreOf sc k' ≤ scoreOf sc k)
    ∧ (∀ j k', i < j → score_keys sc !! j = Some k' →
               scoreOf sc k' < scoreOf sc k)
    ∧ winner = snd <$> findPlayer k (players room')
    ∧ (k ∈ playerIds room' →
       ∃ p, winner = Some p ∧ player_id p = k ∧ p ∈ players room').
Proof.
  intros Hst Hout. pose proof (reachable_consistent _ Hst) as Hc.
  unfold fireTimer in *.
  destruct (pending st) as [|t rest] eqn:Hp.
  { by apply elem_of_nil in Hout. }
  destruct (cons_timers _ Hc t) as (room & Ha & Hin); [rewrite Hp; left|].
  unfold resolve in *.
  change (roomObjs (set_pending rest st)) with (roomObjs st) in *.
  rewrite Ha in *.
  destruct (decide (symbolAt (set_pending rest st) (t_card1 t)
                    = symbolAt (set_pending rest st) (t_card2 t))).
  2:{ simpl in Hout. rewrite !elem_of_cons in Hout.
      destruct Hout as [[=] | [[=] | Hout]]. by apply elem_of_nil in Hout. }
  set (sc1 := score_incr (t_playerId t) (scores room)) in *.
  assert (numericScores sc1) as Hnum.
  { apply score_incr_numeric; [done|]. by apply (cons_numeric _ Hc _ _ Ha). }
  assert (sc1 ≠ []) as Hne.
  { intros Hnil. assert (t_playerId t ∈ score_keys sc1) as Hk
      by (apply score_incr_keys; by left).
    rewrite Hnil in Hk. by apply elem_of_nil in Hk. }
  destruct (bestKey_spec sc1 Hnum Hne) as (k & i & Hbest & Hi & Hmax & Hlast).
  case_decide; simpl in Hout; rewrite !elem_of_cons in Hout.
  2:{ destruct Hout as [[=] | Hout]. by apply elem_of_nil in Hout. }
  destruct Hout as [[=] | [Heq | Hout]]; [|by apply elem_of_nil in Hout].
  injection Heq as -> -> -> -> ->.
  eexists t, _, k, i. split; [done|]. split.
  { simpl. rewrite !roomObjs_updCard. apply list_lookup_insert_eq.
    by eapply lookup_lt_Some. }
  simpl. do 6 (split; [done|]).
  unfold findWinner. simpl. fold sc1. rewrite Hbest. simpl. split; [done|].
  intros Hk. destruct (findPlayer_elem k (players room) Hk) as (j & p & -> & ? & ?).
  eauto.
Qed.

Lemma winner_has_best_score_witness :
  ∃ k, bestKey [("A", Num 8); ("B", Num 0)] = Some k
       ∧ scoreOf [("A", Num 8); ("B", Num 0)] "B"
         ≤ scoreOf [("A", Num 8); ("B", Num 0)] k.
Proof.
  destruct (winner_has_best_score 16000 (run leaderLeaves initialServer)
              (ToRoom "r") [("A", Num 8); ("B", Num 0)] 15900 7 None)
    as (t & room' & k & i & _ & _ & _ & _ & Hbest & _ & Hmax & _).
  - apply reachable_run, reach_init.
  - replace (fireTimer 16000 (run leaderLeaves initialServer)).2
      with [ (ToRoom "r", MatchFound 14 15 "A" [("A", Num 8); ("B", Num 0)]);
             (ToRoom "r", GameEnded [("A", Num 8); ("B", Num 0)] 15900 7 None) ]
      by (vm_compute; reflexivity).
    right. left.
  - exists k. split; [exact Hbest|]. apply (Hmax 1). reflexivity.
Defined.

(** ** Disconnection *)

Lemma run_cons e evs st : run (e :: evs) st = run evs (handle e st).1.
Proof. reflexivity. Qed.

(** A started, paused room stays so as long as no resume-game event names
    its id. *)
Lemma room_stays_paused evs st a room :
  consistent st →
  roomObjs st !! a = Some room →
  gameStarted room = true →
  paused room = true →
  noResume (room_id room) evs →
  ∃ room', roomObjs (run evs st) !! a = Some room'
           ∧ gameStarted room' = true ∧ paused room' = true.
Proof.
  revert st room. induction evs as [|e evs IH]; intros st room Hc Ha Hs Hp Hno.
  { exists room. done. }
  rewrite run_cons.
  assert (noResume (room_id room) evs) as Hno'.
  { intros sid now Hin. apply (Hno sid now). by right. }
  destruct (step_room e st a room Hc Ha) as (room1 & Ha1 & [-> | Hk]).
  { by apply (IH _ room); [apply consistent_step| | | |]. }
  destruct Hk as (Hid & Hs1 & Hp1 & _).
  destruct (Hp1 Hp) as [Hp1' | (sid & rid & now & -> & Hrid)].
  - apply (IH _ room1); [by apply consistent_step|done|by apply Hs1|done|].
    by rewrite Hid.
  - exfalso. destruct (cons_rooms _ Hc rid a Hrid) as (r & Hr & Hrid').
    pose proof (eq_trans (eq_sym Ha) Hr) as Heq. injection Heq as <-.
    subst rid. apply (Hno sid now). left.
Qed.

(** Disconnection of a connection whose reverse lookup is intact: when a
    connection that the registry maps to a room in which it is a
    player disconnects, that player stays in the list, marked
    [connected = false]; if the game is started and not paused the room
    becomes paused by that connection at that time and the pause notice
    carries the reason "Player disconnected" (an explicit pause carries the
    name of the player and no reason); and from then on, as long as the room
    stays registered and no resume-game event for it arrives, every flip-card
    request for the room, from anybody, is answered by the paused-game
    error and changes nothing. *)
Theorem disconnect_pauses sid now st pd a room i player :
  reachable st →
  socketPlayers st !! sid = Some pd →
  getRoom st (roomId pd) = Some (a, room) →
  findPlayer sid (players room) = Some (i, player) →
  ∃ room1,
    getRoom (disconnect sid now st).1 (roomId pd) = Some (a, room1)
    ∧ players room1 = <[i := mkPlayer sid (name player) false]> (players room)
    ∧ players room1 !! i = Some (mkPlayer sid (name player) false)
    ∧ length (players room1) = length (players room)
    ∧ playerIds room1 = playerIds room
    ∧ (gameStarted room = true → paused room = false →
       paused room1 = true ∧ pausedBy room1 = Some sid
       ∧ pausedAt room1 = Some now
       ∧ (ToRoom (roomId pd), GamePaused sid None (Some "Player disconnected"))
           ∈ (disconnect sid now st).2)
    ∧ (gameStarted room = true →
       ∀ evs, noResume (roomId pd) evs →
         rooms (run evs (disconnect sid now st).1) !! roomId pd = Some a →
         ∀ sid' cardId,
           flipCard sid' (roomId pd) cardId (run evs (disconnect sid now st).1)
           = (run evs (disconnect sid now st).1,
              [(ToSocket sid', Error "Game is currently paused")])).
Proof.
  intros Hst Hpd Hroom Hp. pose proof (reachable_consistent _ Hst) as Hc.
  pose proof (consistent_step (Disconnect sid now) st Hc) as Hc1.
  destruct (findPlayer_Some _ _ _ _ Hp) as [Hi Hid].
  apply getRoom_Some in Hroom as Hroom'. destruct Hroom' as [Hrid Ha].
  destruct (cons_rooms _ Hc _ _ Hrid) as (r & Hr & Hrid').
  pose proof (eq_trans (eq_sym Ha) Hr) as Heq. injection Heq as <-. clear Hr.
  assert (a < length (roomObjs st)) as Hlt by (by eapply lookup_lt_Some).
  assert (set_connected false player = mkPlayer sid (name player) false) as Hmk.
  { unfold set_connected. by rewrite Hid. }
  simpl in Hc1. revert Hc1. unfold disconnect. rewrite Hpd, Hroom, Hp.
  set (room1 := set_players (markDisconnected i player (players room)) room).
  assert (∀ r1, players r1 = players room1 → room_id r1 = room_id room →
            (gameStarted r1 = true → paused r1 = true) →
            gameStarted r1 = gameStarted room →
            ∀ st1 : Server,
            consistent st1 →
            getRoom st1 (roomId pd) = Some (a, r1) →
            (players r1 = <[i := mkPlayer sid (name player) false]> (players room)
             ∧ players r1 !! i = Some (mkPlayer sid (name player) false)
             ∧ length (players r1) = length (players room)
             ∧ playerIds r1 = playerIds room)
            ∧ (gameStarted room = true →
               ∀ evs, noResume (roomId pd) evs →
                 rooms (run evs st1) !! roomId pd = Some a →
                 ∀ sid' cardId,
                   flipCard sid' (roomId pd) cardId (run evs st1)
                   = (run evs st1,
                      [(ToSocket sid', Error "Game is currently paused")])))
    as Hgen.
  { intros r1 Hpl Hrid1 Hpaused Hstarted st1 Hc1 Hget. split.
    - rewrite Hpl. simpl. unfold markDisconnected. rewrite Hmk.
      split; [done|]. split.
      { apply list_lookup_insert_eq. by eapply lookup_lt_Some. }
      split; [by rewrite length_insert|].
      unfold playerIds. rewrite Hpl. simpl.
      by apply (playerIds_markDisconnected i player (players room)).
    - intros Hs evs Hno Hreg sid' cardId.
      apply getRoom_Some in Hget as [_ Ha1].
      destruct (room_stays_paused evs st1 a r1 Hc1 Ha1) as (r2 & Ha2 & Hs2 & Hp2).
      + by rewrite Hstarted.
      + apply Hpaused. by rewrite Hstarted.
      + by rewrite Hrid1, Hrid'.
      + unfold flipCard.
        assert (getRoom (run evs st1) (roomId pd) = Some (a, r2)) as ->
          by (by apply getRoom_Some).
        by rewrite Hs2, Hp2. }
  simpl. destruct (gameStarted room) eqn:Hs; destruct (paused room) eqn:Hpa;
    simpl; intros Hc1;
    (eexists; split;
     [ apply getRoom_Some; simpl; split;
       [exact Hrid | by apply list_lookup_insert_eq]
     | ]);
    match goal with
    | |- players ?R = _ ∧ _ =>
        edestruct (Hgen R) as [(H1 & H2 & H3 & H4) H5];
          [ reflexivity | reflexivity
          | subst room1; simpl; intros; congruence
          | subst room1; simpl; congruence
          | exact Hc1
          | apply getRoom_Some; simpl; split;
            [exact Hrid | by apply list_lookup_insert_eq]
          | ]
    end;
    (split; [exact H1|]); (split; [exact H2|]); (split; [exact H3|]);
    (split; [exact H4|]); (split; [|exact H5]); try (intros; congruence).
  intros _ _. do 3 (split; [done|]). right. left.
Qed.

Lemma disconnect_pauses_witness :
  let st := run twoPlayersStarted initialServer in
  flipCard "A" "r" 0 (disconnect "B" 500 st).1
  = ((disconnect "B" 500 st).1, [(ToSocket "A", Error "Game is currently paused")]).
Proof.
  intros st.
  destruct (disconnect_pauses "B" 500 st
              (mkPlayerData (mkPlayer "B" "Bob" true) "r") 0
              (default (newRoom "r" noConfig) (roomObjs st !! 0)) 1
              (mkPlayer "B" "Bob" true))
    as (room1 & _ & _ & _ & _ & _ & _ & Hflip).
  - apply reachable_run, reach_init.
  - vm_compute. reflexivity.
  - vm_compute. reflexivity.
  - vm_compute. reflexivity.
  - apply (Hflip ltac:(vm_compute; reflexivity) []).
    + intros sid now Hin. by apply elem_of_nil in Hin.
    + vm_compute. reflexivity.
Defined.

(** C8 is not met by the code: [disconnect] reaches the room of a connection
    through the reverse lookup only, and the entry of a player who is still
    listed in a room is deleted by a leave-room request naming another room
    and redirected by a second join-room.  When player B of the started room
    [r] disconnects after either, B stays listed in [r] with
    [connected = true], the room is not paused, no pause notice is sent, and
    the next flip of player A is accepted and broadcast. *)
Theorem disconnect_of_listed_player_ignored :
  let st := run strayLeave initialServer in
  let st' := run secondJoin initialServer in
  let room_r (s : Server) :=
    (λ ar, (players ar.2, gameStarted ar.2, paused ar.2)) <$> getRoom s "r" in
  let listed := [mkPlayer "A" "Ann" true; mkPlayer "B" "Bob" true] in
  reachable st
  ∧ room_r st = Some (listed, true, false)
  ∧ disconnect "B" 500 st = (st, [])
  ∧ flipCard "A" "r" 0 (disconnect "B" 500 st).1
    = (run (strayLeave ++ [FlipCard "A" "r" 0]) initialServer,
       [(ToRoom "r", CardFlipped 0 (Some "🎮") "A")])
  ∧ reachable st'
  ∧ room_r st' = Some (listed, true, false)
  ∧ room_r (disconnect "B" 500 st').1 = Some (listed, true, false)
  ∧ (disconnect "B" 500 st').2
    = [(ToOthers "s" "B", PlayerDisconnected (mkPlayer "B" "Bob" false))]
  ∧ (flipCard "A" "r" 0 (disconnect "B" 500 st').1).2
    = [(ToRoom "r", CardFlipped 0 (Some "🎮") "A")].
Proof.
  split; [apply reachable_run, reach_init|].
  split; [vm_compute; reflexivity|]. split; [vm_compute; reflexivity|].
  split; [vm_compute; reflexivity|].
  split; [apply reachable_run, reach_init|].
  split; [vm_compute; reflexivity|]. split; [vm_compute; reflexivity|].
  split; vm_compute; reflexivity.
Qed.

(** * Further properties of the handlers *)

(** ** Sanitization of room ids and player names *)

Lemma filter_filter_bool {A} (f : A → bool) (l : list A) :
  List.filter f (List.filter f l) = List.filter f l.
Proof.
  induction l as [|x l IH]; simpl; [done|].
  destruct (f x) eqn:Hx; simpl; [|done]. by rewrite Hx, IH.
Qed.

Lemma filter_bool_all {A} (f : A → bool) (l : list A) :
  Forall (λ x, f x = true) l → List.filter f l = l.
Proof.
  induction 1 as [|x l Hx _ IH]; simpl; [done|]. by rewrite Hx, IH.
Qed.

Lemma filter_bool_none {A} (f : A → bool) (l : list A) :
  Forall (λ x, f x = false) l → List.filter f l = [].
Proof. induction 1 as [|x l Hx _ IH]; simpl; [done|]. by rewrite Hx. Qed.

Lemma filter_bool_Forall {A} (f : A → bool) (l : list A) :
  Forall (λ x, f x = true) (List.filter f l).
Proof.
  induction l as [|x l IH]; simpl; [constructor|].
  destruct (f x) eqn:Hx; [by constructor|done].
Qed.

Lemma filter_bool_sublist {A} (f : A → bool) (l : list A) :
  List.filter f l `sublist_of` l.
Proof.
  induction l as [|x l IH]; simpl; [constructor|].
  destruct (f x); by constructor.
Qed.

Lemma filter_bool_elem {A} (f : A → bool) (l : list A) x :
  x ∈ List.filter f l ↔ x ∈ l ∧ f x = true.
Proof. rewrite !list_elem_of_In. apply filter_In. Qed.

Lemma isRoomIdChar_spec c :
  isRoomIdChar c = true
  ↔ (97 ≤ nat_of_ascii c ∧ nat_of_ascii c ≤ 122)
    ∨ (65 ≤ nat_of_ascii c ∧ nat_of_ascii c ≤ 90)
    ∨ (48 ≤ nat_of_ascii c ∧ nat_of_ascii c ≤ 57)
    ∨ nat_of_ascii c = 45 ∨ nat_of_ascii c = 95.
Proof.
  unfold isRoomIdChar, between.
  rewrite !orb_true_iff, !andb_true_iff, !Nat.leb_le. lia.
Qed.

Lemma sanitizeRoomId_cons c s :
  sanitizeRoomId (String c s)
  = if isRoomIdChar c then String c (sanitizeRoomId s) else sanitizeRoomId s.
Proof. unfold sanitizeRoomId. simpl. by destruct (isRoomIdChar c). Qed.

Lemma sanitizeRoomId_app s1 s2 :
  sanitizeRoomId (s1 +:+ s2) = sanitizeRoomId s1 +:+ sanitizeRoomId s2.
Proof.
  induction s1 as [|c s1 IH]; [done|].
  change (String c s1 +:+ s2) with (String c (s1 +:+ s2)).
  rewrite !sanitizeRoomId_cons, IH. by destruct (isRoomIdChar c).
Qed.

(** [roomId.replace(/[^a-zA-Z0-9-_]/g, '')] deletes the characters that are
    not a letter, a digit, a hyphen or an underscore and keeps exactly the
    others, in their order and with their multiplicity: the filter goes
    through the id character by character, keeping an allowed character and
    dropping any other one, so that it distributes over concatenation; its
    result is a subsequence of the id that holds precisely the allowed
    characters of the id.  Consequently an id made of allowed characters is
    returned as it is, an id without any is reduced to the empty string, and
    filtering twice changes nothing more. *)
Theorem sanitizeRoomId_spec raw :
  (∀ c, isRoomIdChar c = true
        ↔ (97 ≤ nat_of_ascii c ∧ nat_of_ascii c ≤ 122)
          ∨ (65 ≤ nat_of_ascii c ∧ nat_of_ascii c ≤ 90)
          ∨ (48 ≤ nat_of_ascii c ∧ nat_of_ascii c ≤ 57)
          ∨ nat_of_ascii c = 45 ∨ nat_of_ascii c = 95)
  ∧ sanitizeRoomId "" = ""
  ∧ (∀ c s, sanitizeRoomId (String c s)
            = if isRoomIdChar c then String c (sanitizeRoomId s)
              else sanitizeRoomId s)
  ∧ (∀ s, sanitizeRoomId (raw +:+ s) = sanitizeRoomId raw +:+ sanitizeRoomId s)
  ∧ list_ascii_of_string (sanitizeRoomId raw)
    `sublist_of` list_ascii_of_string raw
  ∧ (∀ c, c ∈ list_ascii_of_string (sanitizeRoomId raw)
          ↔ c ∈ list_ascii_of_string raw ∧ isRoomIdChar c = true)
  ∧ Forall (λ c, isRoomIdChar c = true)
      (list_ascii_of_string (sanitizeRoomId raw))
  ∧ sanitizeRoomId (sanitizeRoomId raw) = sanitizeRoomId raw
  ∧ (Forall (λ c, isRoomIdChar c = true) (list_ascii_of_string raw) →
     sanitizeRoomId raw = raw)
  ∧ (Forall (λ c, isRoomIdChar c = false) (list_ascii_of_string raw) →
     sanitizeRoomId raw = "").
Proof.
  split; [apply isRoomIdChar_spec|]. split; [done|].
  split; [apply sanitizeRoomId_cons|]. split; [apply sanitizeRoomId_app|].
  unfold sanitizeRoomId. rewrite !list_ascii_of_string_of_list_ascii.
  split; [apply filter_bool_sublist|].
  split; [intros c; apply filter_bool_elem|].
  split; [apply filter_bool_Forall|]. split; [by rewrite filter_filter_bool|].
  split.
  - intros H. rewrite filter_bool_all by done.
    apply string_of_list_ascii_of_string.
  - intros H. rewrite filter_bool_none; [done|].
    eapply Forall_impl; [exact H|]. done.
Qed.

Lemma sanitizeRoomId_spec_witness :
  sanitizeRoomId "r!1 <x>" = "r1x" ∧ sanitizeRoomId "room-1_A" = "room-1_A".
Proof.
  split.
  - destruct (sanitizeRoomId_spec "") as (_ & Hnil & Hcons & _).
    rewrite !Hcons, Hnil. reflexivity.
  - destruct (sanitizeRoomId_spec "room-1_A") as (_ & _ & _ & _ & _ & _ & _ & _ & H & _).
    apply H. apply (bool_decide_unpack _). vm_compute. exact I.
Defined.


(** *** White space at the ends of a name *)

Lemma stripPrefix_Some w l r : stripPrefix w l = Some r ↔ l = w ++ r.
Proof.
  revert l. induction w as [|c w IH]; intros l; simpl.
  - split; [by intros [= ->]|by intros ->].
  - destruct l as [|d l]; [by split|].
    destruct (Ascii.eqb c d) eqn:E.
    + apply Ascii.eqb_eq in E as ->. rewrite IH.
      split; [by intros ->|by intros [= ->]].
    + apply Ascii.eqb_neq in E. split; [done|]. by intros [= -> _].
Qed.

Lemma stripWhite_Some ws l r :
  stripWhite ws l = Some r → ∃ w, w ∈ ws ∧ l = w ++ r.
Proof.
  induction ws as [|w ws IH]; simpl; [done|].
  destruct (stripPrefix w l) as [r'|] eqn:E.
  - intros [= ->]. apply stripPrefix_Some in E. exists w. split; [left|done].
  - intros H. destruct (IH H) as (w' & Hw' & ->). exists w'.
    split; [by right|done].
Qed.

Lemma stripWhite_None ws l w r :
  stripWhite ws l = None → w ∈ ws → l ≠ w ++ r.
Proof.
  induction ws as [|w0 ws IH]; simpl; [by intros _ ?%elem_of_nil|].
  destruct (stripPrefix w0 l) as [r'|] eqn:E; [done|].
  intros H [-> | Hw]%elem_of_cons; [|by apply IH].
  intros Heq. apply stripPrefix_Some in Heq. congruence.
Qed.

Lemma stripWhite_nil ws : Forall (λ w, w ≠ []) ws → stripWhite ws [] = None.
Proof. induction 1 as [|w ws Hw _ IH]; simpl; [done|]. by destruct w. Qed.

Lemma dropWhite_S n ws l :
  dropWhite (S n) ws l
  = match stripWhite ws l with Some rest => dropWhite n ws rest | None => l end.
Proof. done. Qed.

Lemma dropWhite_drop n ws l : ∃ k, dropWhite n ws l = drop k l.
Proof.
  revert l. induction n as [|n IH]; intros l; [by exists 0|].
  rewrite dropWhite_S. destruct (stripWhite ws l) as [r|] eqn:E; [|by exists 0].
  apply stripWhite_Some in E as (w & _ & ->). destruct (IH r) as [k ->].
  exists (length w + k). by rewrite <-drop_drop, drop_app_length.
Qed.

(** With [length l] rounds nothing is left to remove. *)
Lemma dropWhite_done n ws l :
  Forall (λ w, w ≠ []) ws → length l ≤ n →
  stripWhite ws (dropWhite n ws l) = None.
Proof.
  intros Hne. revert l. induction n as [|n IH]; intros l Hl.
  - destruct l; [|simpl in Hl; lia]. by apply stripWhite_nil.
  - rewrite dropWhite_S. destruct (stripWhite ws l) as [r|] eqn:E; [|done].
    apply IH. apply stripWhite_Some in E as (w & Hw & ->).
    rewrite length_app in Hl.
    assert (w ≠ []) as Hw' by (by eapply Forall_forall in Hne).
    destruct w; [done|]. simpl in Hl. lia.
Qed.

Lemma whiteSpaces_nonempty : Forall (λ w : list ascii, w ≠ []) whiteSpaces.
Proof. unfold whiteSpaces. repeat constructor; done. Qed.



Lemma isSpace_white c :
  isSpace c = true → [c] ∈ whiteSpaces.
Proof.
  destruct c as [[] [] [] [] [] [] [] []]; intros H; vm_compute in H;
    try discriminate H; apply (bool_decide_unpack _); vm_compute; exact I.
Qed.

Lemma dropSpaces_drop l : ∃ n, dropSpaces l = drop n l.
Proof. apply dropWhite_drop. Qed.

Lemma dropSpacesEnd_drop l : ∃ n, dropSpacesEnd l = drop n l.
Proof. apply dropWhite_drop. Qed.

(** What [dropSpaces] returns does not start with white space. *)
Lemma dropSpaces_done l w r : w ∈ whiteSpaces → dropSpaces l ≠ w ++ r.
Proof.
  intros Hw. eapply stripWhite_None; [|exact Hw].
  by apply dropWhite_done; [apply whiteSpaces_nonempty|].
Qed.


Lemma dropSpaces_head l c : head (dropSpaces l) = Some c → isSpace c = false.
Proof.
  intros H. destruct (isSpace c) eqn:Hc; [|done].
  destruct (dropSpaces l) as [|d r] eqn:E; [done|]. simpl in H.
  injection H as ->. by destruct (dropSpaces_done l [c] r (isSpace_white c Hc)).
Qed.


(** One white space character in front is removed in one round. *)
Lemma stripWhite_white w r :
  w ∈ whiteSpaces → stripWhite whiteSpaces (w ++ r) = Some r.
Proof.
  unfold whiteSpaces. intros H.
  repeat (apply elem_of_cons in H as [-> | H]); [reflexivity..|].
  by apply elem_of_nil in H.
Qed.

Lemma dropWhite_concat parts n :
  Forall (λ p, p ∈ whiteSpaces) parts → length (concat parts) ≤ n →
  dropWhite n whiteSpaces (concat parts) = [].
Proof.
  intros H. revert n. induction H as [|p parts Hp _ IH]; intros n Hn.
  - by destruct n.
  - simpl in *. rewrite length_app in Hn.
    assert (p ≠ []) as Hne
      by (by eapply Forall_forall in Hp; [|apply whiteSpaces_nonempty]).
    destruct n as [|n]; [destruct p; [done|simpl in Hn; lia]|].
    rewrite dropWhite_S, stripWhite_white by done. apply IH.
    destruct p; [done|]. simpl in Hn. lia.
Qed.

Lemma trim_concat parts :
  Forall (λ p, p ∈ whiteSpaces) parts → trim (concat parts) = [].
Proof.
  intros H. unfold trim, dropSpaces. by rewrite dropWhite_concat.
Qed.

(** [trim] returns a segment of its argument. *)
Lemma trim_segment l :
  ∃ n k, trim l = take k (drop n l) ∧ trim l = take k (dropSpaces l).
Proof.
  unfold trim. destruct (dropSpaces_drop l) as [n Hn].
  destruct (dropSpacesEnd_drop (rev (dropSpaces l))) as [m Hm].
  rewrite Hm, skipn_rev, rev_involutive. rewrite Hn.
  by exists n, (length (drop n l) - m).
Qed.

Lemma trim_Forall (P : ascii → Prop) l : Forall P l → Forall P (trim l).
Proof.
  intros H. destruct (trim_segment l) as (n & k & -> & _).
  by apply Forall_take, Forall_drop.
Qed.


Lemma filter_angle_parts parts :
  Forall (λ p, p ∈ angleBrackets ++ whiteSpaces) parts →
  ∃ parts', Forall (λ p, p ∈ whiteSpaces) parts'
    ∧ List.filter (λ c, negb (isAngle c)) (concat parts) = concat parts'.
Proof.
  induction 1 as [|p parts Hp _ (parts' & Hparts' & IH)]; [by exists []|].
  simpl. rewrite List.filter_app, IH. apply elem_of_app in Hp as [Hp|Hp].
  - exists parts'. split; [done|]. unfold angleBrackets in Hp.
    repeat (apply elem_of_cons in Hp as [-> | Hp]); [reflexivity..|].
    by apply elem_of_nil in Hp.
  - exists (p :: parts'). split; [by constructor|]. simpl. f_equal.
    clear -Hp. unfold whiteSpaces in Hp.
    repeat (apply elem_of_cons in Hp as [-> | Hp]); [reflexivity..|].
    by apply elem_of_nil in Hp.
Qed.

Lemma sanitizePlayerName_blank raw :
  blankName raw → sanitizePlayerName raw = "".
Proof.
  intros (parts & Hparts & Hraw). unfold sanitizePlayerName. rewrite Hraw.
  destruct (filter_angle_parts parts Hparts) as (parts' & Hparts' & ->).
  by rewrite trim_concat.
Qed.





Lemma sanitizeRoomId_none raw :
  Forall (λ c, isRoomIdChar c = false) (list_ascii_of_string raw) →
  sanitizeRoomId raw = "".
Proof.
  intros H. unfold sanitizeRoomId. rewrite filter_bool_none; [done|].
  eapply Forall_impl; [exact H|]. done.
Qed.

(** ** Joining a room *)

(** A join-room request whose room id holds no letter, digit, hyphen or
    underscore, or whose player name holds nothing but angle brackets and
    white space (any of the characters that [trim] removes, the no-break
    space among them), is answered by the invalid-input error and changes
    nothing. *)
Theorem joinRoom_invalid_input sid rawRoomId rawName st :
  Forall (λ c, isRoomIdChar c = false) (list_ascii_of_string rawRoomId)
  ∨ blankName rawName →
  joinRoom sid rawRoomId rawName st
  = (st, [(ToSocket sid, Error "Invalid room ID or player name")]).
Proof.
  intros H. unfold joinRoom. rewrite decide_True; [done|].
  destruct H as [H|H]; [left; by apply sanitizeRoomId_none
                       |right; by apply sanitizePlayerName_blank].
Qed.

Lemma joinRoom_invalid_input_witness :
  joinRoom "A" "!!! ???" "Ann" initialServer
  = (initialServer, [(ToSocket "A", Error "Invalid room ID or player name")])
  ∧ joinRoom "A" "r" noBreakSpace initialServer
    = (initialServer, [(ToSocket "A", Error "Invalid room ID or player name")]).
Proof.
  split.
  - apply joinRoom_invalid_input. left.
    apply (bool_decide_unpack _). vm_compute. exact I.
  - apply joinRoom_invalid_input. right.
    exists [list_ascii_of_string noBreakSpace]. split; [|reflexivity].
    constructor; [|constructor].
    apply (bool_decide_unpack _). vm_compute. exact I.
Defined.

Lemma score_get_set k v sc : score_get k (score_set k v sc) = Some v.
Proof.
  induction sc as [|[k0 v0] sc IH]; simpl.
  - by rewrite decide_True.
  - destruct (decide (k0 = k)) as [-> | Hne]; simpl.
    + by rewrite decide_True.
    + by rewrite decide_False.
Qed.

Lemma score_get_set_ne k k' v sc :
  k' ≠ k → score_get k' (score_set k v sc) = score_get k' sc.
Proof.
  intros Hne. induction sc as [|[k0 v0] sc IH]; simpl.
  - by rewrite decide_False.
  - destruct (decide (k0 = k)) as [-> | Hne0]; simpl.
    + by rewrite !decide_False.
    + destruct (decide (k0 = k')); [done|apply IH].
Qed.

(** [addPlayerToRoom] succeeds exactly when the room exists and is not full.
    A failure changes nothing.  A success appends the player to the list
    (without looking for an entry with the same id), sets the score of its id
    to 0 without touching the other scores, and records the reverse lookup
    from the id to the room. *)
Theorem addPlayerToRoom_spec rid player st :
  ((addPlayerToRoom rid player st).2 = true
   ↔ ∃ a room, getRoom st rid = Some (a, room)
       ∧ length (players room) < maxPlayers (config room))
  ∧ ((addPlayerToRoom rid player st).2 = false →
     (addPlayerToRoom rid player st).1 = st)
  ∧ (∀ a room,
       getRoom st rid = Some (a, room) →
       length (players room) < maxPlayers (config room) →
       ∃ room',
         getRoom (addPlayerToRoom rid player st).1 rid = Some (a, room')
         ∧ players room' = players room ++ [player]
         ∧ score_get (player_id player) (scores room') = Some (Num 0)
         ∧ (∀ k, k ≠ player_id player →
                 score_get k (scores room') = score_get k (scores room))
         ∧ socketPlayers (addPlayerToRoom rid player st).1 !! player_id player
           = Some (mkPlayerData player rid)).
Proof.
  unfold addPlayerToRoom.
  destruct (getRoom st rid) as [[a room]|] eqn:Hroom.
  2:{ simpl. split; [split; [done|by intros (?&?&?&_)]|].
      split; [done|]. by intros. }
  apply getRoom_Some in Hroom as [Hrid Ha].
  case_decide as Hfull; simpl.
  - split; [split; [done|intros (?&?&[= <- <-]&?); lia]|].
    split; [done|]. intros ? ? [= <- <-] ?. lia.
  - split; [split; [intros _; exists a, room; split; [done|lia]|done]|].
    split; [done|]. intros ? ? [= <- <-] _. eexists. split.
    + apply getRoom_Some. simpl. split; [done|].
      apply list_lookup_insert_eq. by eapply lookup_lt_Some.
    + simpl. split; [done|]. split; [apply score_get_set|].
      split; [intros k Hk; by apply score_get_set_ne|].
      apply lookup_insert_eq.
Qed.

Lemma addPlayerToRoom_spec_witness :
  ∃ room',
    getRoom (addPlayerToRoom "r" (mkPlayer "B" "Bob" true)
               (run [JoinRoom "A" "r" "Ann"] initialServer)).1 "r"
    = Some (0, room')
    ∧ playerIds room' = ["A"; "B"].
Proof.
  destruct (proj2 (proj2 (addPlayerToRoom_spec "r" (mkPlayer "B" "Bob" true)
              (run [JoinRoom "A" "r" "Ann"] initialServer))) 0
              (default (newRoom "r" noConfig)
                 (roomObjs (run [JoinRoom "A" "r" "Ann"] initialServer) !! 0)))
    as (room' & Hget & Hpl & _).
  - vm_compute. reflexivity.
  - vm_compute. lia.
  - exists room'. split; [exact Hget|]. unfold playerIds. rewrite Hpl.
    vm_compute. reflexivity.
Defined.

(** A join-room request with a usable id and name for a room that is full is
    answered by the room-full error: nothing changes, and no room-joined or
    player-joined message goes out. *)
Theorem joinRoom_full sid rawRoomId rawName st a room :
  sanitizeRoomId rawRoomId ≠ "" →
  sanitizePlayerName rawName ≠ "" →
  getRoom st (sanitizeRoomId rawRoomId) = Some (a, room) →
  maxPlayers (config room) ≤ length (players room) →
  joinRoom sid rawRoomId rawName st
  = (st, [(ToSocket sid, Error "Unable to join room. Room may be full.")]).
Proof.
  intros Hid Hname Hroom Hfull. unfold joinRoom.
  rewrite decide_False by (by intros [?|?]).
  unfold ensureRoom. rewrite decide_True.
  2:{ apply getRoom_Some in Hroom as [-> _]. eauto. }
  unfold addPlayerToRoom. rewrite Hroom. by rewrite decide_True.
Qed.

Lemma joinRoom_full_witness :
  joinRoom "C" "r" "Cid"
    (run [JoinRoom "A" "r" "Ann"; JoinRoom "B" "r" "Bob"] initialServer)
  = (run [JoinRoom "A" "r" "Ann"; JoinRoom "B" "r" "Bob"] initialServer,
     [(ToSocket "C", Error "Unable to join room. Room may be full.")]).
Proof.
  apply (joinRoom_full "C" "r" "Cid" _ 0
           (default (newRoom "r" noConfig)
              (roomObjs (run [JoinRoom "A" "r" "Ann"; JoinRoom "B" "r" "Bob"]
                           initialServer) !! 0))).
  - vm_compute. discriminate.
  - vm_compute. discriminate.
  - vm_compute. reflexivity.
  - vm_compute. lia.
Defined.

(** A join-room request with a usable id and name for an id that is not
    registered creates the room with the default configuration, makes the
    caller its only player with score 0, leaves every other room object
    alone, and answers room-joined to the caller and player-joined to the
    others. *)
Theorem joinRoom_creates_room sid rawRoomId rawName st :
  sanitizeRoomId rawRoomId ≠ "" →
  sanitizePlayerName rawName ≠ "" →
  rooms st !! sanitizeRoomId rawRoomId = None →
  ∃ room,
    getRoom (joinRoom sid rawRoomId rawName st).1 (sanitizeRoomId rawRoomId)
    = Some (length (roomObjs st), room)
    ∧ roomObjs (joinRoom sid rawRoomId rawName st).1 = roomObjs st ++ [room]
    ∧ config room = defaultConfig
    ∧ players room = [mkPlayer sid (sanitizePlayerName rawName) true]
    ∧ scores room = [(sid, Num 0)]
    ∧ gameStarted room = false ∧ paused room = false
    ∧ socketPlayers (joinRoom sid rawRoomId rawName st).1 !! sid
      = Some (mkPlayerData (mkPlayer sid (sanitizePlayerName rawName) true)
                (sanitizeRoomId rawRoomId))
    ∧ (joinRoom sid rawRoomId rawName st).2
      = [ (ToSocket sid,
           RoomJoined (sanitizeRoomId rawRoomId) sid
             [mkPlayer sid (sanitizePlayerName rawName) true] defaultConfig);
          (ToOthers (sanitizeRoomId rawRoomId) sid,
           PlayerJoined (mkPlayer sid (sanitizePlayerName rawName) true)) ].
Proof.
  intros Hid Hname Hnone. unfold joinRoom.
  set (rid := sanitizeRoomId rawRoomId) in *.
  set (pname := sanitizePlayerName rawName) in *.
  rewrite decide_False by (by intros [?|?]).
  unfold ensureRoom. rewrite decide_False by (rewrite Hnone; by intros [? ?]).
  unfold addPlayerToRoom. rewrite getRoom_createRoom.
  rewrite decide_False by (simpl; lia). cbv beta iota zeta.
  set (room := set_scores _ _).
  match goal with
  | |- context [getRoom (set_socketPlayers ?m ?s) rid] =>
      assert (getRoom (set_socketPlayers m s) rid
              = Some (length (roomObjs st), room)) as Hget
  end.
  { apply getRoom_Some. simpl. split; [apply lookup_insert_eq|].
    rewrite insert_last. rewrite lookup_app_r by lia. by rewrite Nat.sub_diag. }
  rewrite Hget. simpl. exists room. split; [exact Hget|].
  split; [apply insert_last|]. do 5 (split; [done|]).
  split; [apply lookup_insert_eq|done].
Qed.

Lemma joinRoom_creates_room_witness :
  ∃ room,
    getRoom (joinRoom "A" "r" "Ann" initialServer).1 "r" = Some (0, room)
    ∧ players room = [mkPlayer "A" "Ann" true].
Proof.
  destruct (joinRoom_creates_room "A" "r" "Ann" initialServer)
    as (room & Hget & _ & _ & Hpl & _).
  - vm_compute. discriminate.
  - vm_compute. discriminate.
  - vm_compute. reflexivity.
  - exists room. split; [exact Hget|exact Hpl].
Defined.

(** ** Flipping a card *)

Lemma findCard_Some cards board cardId c card :
  findCard cards board cardId = Some (c, card) →
  c ∈ board ∧ cards !! c = Some card ∧ card_id card = cardId.
Proof.
  induction board as [|a board IH]; simpl; [done|].
  destruct (cards !! a) as [x|] eqn:Ha.
  - destruct (decide (card_id x = cardId)) as [Hid|Hid].
    + intros [= <- <-]. split; [left|done].
    + intros H. destruct (IH H) as (? & ? & ?). split; [by right|done].
  - intros H. destruct (IH H) as (? & ? & ?). split; [by right|done].
Qed.

(** The preconditions of flip-card are the only ways to fail: when none of
    them fails the flip is accepted.  The card found is turned face up and
    appended to [flippedCards]; nothing else changes in the room (scores,
    moves, turn and matched pairs stay); card-flipped is broadcast with the
    id and symbol of the card and the id of the caller; and a resolution
    callback is scheduled exactly when the buffer held one card before. *)
Theorem flipCard_accepted sid rid cardId st :
  ¬ flipRejected sid rid cardId st →
  ∃ a room c card,
    getRoom st rid = Some (a, room)
    ∧ findCard (cardObjs st) (gameBoard room) cardId = Some (c, card)
    ∧ card_id card = cardId
    ∧ (flipCard sid rid cardId st).2
      = [(ToRoom rid, CardFlipped cardId (symbol card) sid)]
    ∧ cardObjs (flipCard sid rid cardId st).1
      = <[c := set_flipped true card]> (cardObjs st)
    ∧ roomObjs (flipCard sid rid cardId st).1
      = <[a := set_flippedCards (flippedCards room ++ [c]) room]> (roomObjs st)
    ∧ rooms (flipCard sid rid cardId st).1 = rooms st
    ∧ socketPlayers (flipCard sid rid cardId st).1 = socketPlayers st
    ∧ (∀ c1, flippedCards room = [c1] →
         pending (flipCard sid rid cardId st).1
         = pending st ++ [mkTimer a rid c1 c sid])
    ∧ (length (flippedCards room) ≠ 1 →
       pending (flipCard sid rid cardId st).1 = pending st).
Proof.
  unfold flipRejected, flipCard. intros Hacc.
  destruct (getRoom st rid) as [[a room]|] eqn:Hroom; [|by destruct Hacc].
  destruct (gameStarted room); [|destruct Hacc; by left].
  destruct (paused room); [destruct Hacc; right; by left|]. simpl.
  destruct (playerAt (players room) (currentPlayer room)) as [cur|];
    [|destruct Hacc; do 2 right; left; done].
  destruct (decide (player_id cur ≠ sid)) as [Hne|Heq].
  { destruct Hacc. do 2 right. left. simpl. by intros [= ?]. }
  apply dec_stable in Heq.
  destruct (findCard (cardObjs st) (gameBoard room) cardId) as [[c card]|] eqn:Hc;
    [|destruct Hacc; by do 3 right].
  destruct (matched card) eqn:Hm; [destruct Hacc; do 3 right; by left|].
  destruct (flipped card) eqn:Hf; [destruct Hacc; do 3 right; by right|].
  destruct (findCard_Some _ _ _ _ _ Hc) as (_ & _ & Hid). simpl.
  exists a, room, c, card. do 3 (split; [done|]).
  destruct (flippedCards room) as [|c1 [|c2 l]] eqn:Hfl; simpl;
    rewrite ?Hid, ?Heq; repeat split; try done.
  - by intros c1' [= <-].
  - destruct l; simpl; by rewrite ?Hid.
  - by destruct l.
  - by destruct l.
  - by destruct l.
  - by destruct l.
  - by destruct l.
Qed.

Lemma flipCard_accepted_witness :
  ∃ card,
    (flipCard "A" "r" 3 (run twoPlayersStarted initialServer)).2
    = [(ToRoom "r", CardFlipped 3 (symbol card) "A")].
Proof.
  destruct (flipCard_accepted "A" "r" 3 (run twoPlayersStarted initialServer))
    as (a & room & c & card & _ & _ & _ & Hout & _).
  - vm_compute. intros [H|[H|[H|[H|H]]]]; try discriminate. by apply H.
  - exists card. exact Hout.
Defined.

(** ** Resolution callback *)

Lemma cardObjs_updCard a f st :
  cardObjs (updCard a f st) = alter f a (cardObjs st).
Proof.
  unfold updCard. destruct (cardObjs st !! a) as [c|] eqn:Ha; simpl.
  - apply list_eq. intros j. destruct (decide (a = j)) as [<- | Hne].
    + rewrite list_lookup_insert_eq by (by eapply lookup_lt_Some).
      rewrite list_lookup_alter_eq. symmetry. exact (f_equal (fmap f) Ha).
    + by rewrite list_lookup_insert_ne, list_lookup_alter_ne.
  - apply list_eq. intros j. destruct (decide (a = j)) as [<- | Hne].
    + rewrite list_lookup_alter_eq.
      transitivity (@None Card); [exact Ha|].
      symmetry. exact (f_equal (fmap f) Ha).
    + by rewrite list_lookup_alter_ne.
Qed.

Lemma socketPlayers_updCard a f st :
  socketPlayers (updCard a f st) = socketPlayers st.
Proof. unfold updCard. by destruct (cardObjs st !! a). Qed.

Lemma score_incr_get k n sc :
  score_get k sc = Some (Num n) →
  score_get k (score_incr k sc) = Some (Num (S n)).
Proof. intros H. unfold score_incr. rewrite H. apply score_get_set. Qed.

Lemma score_incr_get_ne k k' sc :
  k' ≠ k → score_get k' (score_incr k sc) = score_get k' sc.
Proof. intros H. by apply score_get_set_ne. Qed.

(** When the oldest callback runs it leaves the queue, the room counts one
    more move and its buffer is emptied whatever the buffer held.  If the two
    cards captured show the same symbol, both are marked matched, the room
    counts one more matched pair and the score of the player captured goes up
    by one, the other scores staying.  Otherwise both cards are turned face
    down and scores and matched pairs stay.  Players, board, pause state and
    the registry are not touched. *)
Theorem fireTimer_effect t rest now st room :
  pending st = t :: rest →
  roomObjs st !! t_room t = Some room →
  ∃ room',
    roomObjs (fireTimer now st).1 = <[t_room t := room']> (roomObjs st)
    ∧ pending (fireTimer now st).1 = rest
    ∧ rooms (fireTimer now st).1 = rooms st
    ∧ socketPlayers (fireTimer now st).1 = socketPlayers st
    ∧ moves room' = S (moves room)
    ∧ flippedCards room' = []
    ∧ players room' = players room
    ∧ gameBoard room' = gameBoard room
    ∧ paused room' = paused room
    ∧ gameStarted room' = gameStarted room
    ∧ (symbolAt st (t_card1 t) = symbolAt st (t_card2 t) →
       cardObjs (fireTimer now st).1
       = alter (set_matched true) (t_card2 t)
           (alter (set_matched true) (t_card1 t) (cardObjs st))
       ∧ matchedPairs room' = S (matchedPairs room)
       ∧ currentPlayer room' = currentPlayer room
       ∧ (∀ n, score_get (t_playerId t) (scores room) = Some (Num n) →
               score_get (t_playerId t) (scores room') = Some (Num (S n)))
       ∧ (∀ k, k ≠ t_playerId t →
               score_get k (scores room') = score_get k (scores room)))
    ∧ (symbolAt st (t_card1 t) ≠ symbolAt st (t_card2 t) →
       cardObjs (fireTimer now st).1
       = alter (set_flipped false) (t_card2 t)
           (alter (set_flipped false) (t_card1 t) (cardObjs st))
       ∧ matchedPairs room' = matchedPairs room
       ∧ scores room' = scores room).
Proof.
  intros Hp Hroom. unfold fireTimer. rewrite Hp. unfold resolve.
  change (roomObjs (set_pending rest st)) with (roomObjs st). rewrite Hroom.
  change (symbolAt (set_pending rest st)) with (symbolAt st).
  destruct (decide (symbolAt st (t_card1 t) = symbolAt st (t_card2 t)))
    as [Heq|Hne].
  - case_decide; simpl;
      (eexists; split; [by rewrite !roomObjs_updCard|];
       rewrite !pending_updCard, !rooms_updCard, !socketPlayers_updCard,
         !cardObjs_updCard; simpl;
       do 9 (split; [done|]); split; [|done]; intros _;
       do 3 (split; [done|]);
       split; [intros n; apply score_incr_get
              |intros k; apply score_incr_get_ne]).
  - simpl. eexists. split; [by rewrite !roomObjs_updCard|].
    rewrite !pending_updCard, !rooms_updCard, !socketPlayers_updCard,
      !cardObjs_updCard. simpl.
    do 9 (split; [done|]). split; [done|]. intros _. done.
Qed.

Lemma fireTimer_effect_witness :
  ∃ room',
    roomObjs (fireTimer 2000
      (run (twoPlayersStarted ++ [FlipCard "A" "r" 0; FlipCard "A" "r" 1])
         initialServer)).1 !! 0 = Some room'
    ∧ moves room' = 1 ∧ matchedPairs room' = 1.
Proof.
  set (st := run (twoPlayersStarted ++ [FlipCard "A" "r" 0; FlipCard "A" "r" 1])
               initialServer).
  destruct (fireTimer_effect (mkTimer 0 "r" 0 1 "A") [] 2000 st
              (default (newRoom "r" noConfig) (roomObjs st !! 0)))
    as (room' & Hobjs & _ & _ & _ & Hmoves & _ & _ & _ & _ & _ & Hmatch & _).
  - vm_compute. reflexivity.
  - vm_compute. reflexivity.
  - exists room'. split.
    + rewrite Hobjs. apply list_lookup_insert_eq. vm_compute. lia.
    + split; [rewrite Hmoves; vm_compute; reflexivity|].
      destruct Hmatch as (_ & Hmp & _); [vm_compute; reflexivity|].
      rewrite Hmp. vm_compute. reflexivity.
Defined.

(** The game-ended message goes out exactly when the two cards match and the
    room, counting this pair, has as many matched pairs as half the length of
    the board.  It reports the scores after the increment, the time since
    [startTime], and the number of moves before this last move is counted,
    that is one less than the count the room ends up with. *)
Theorem game_ended_report t rest now st room :
  pending st = t :: rest →
  roomObjs st !! t_room t = Some room →
  (∀ target sc duration mv winner,
     (target, GameEnded sc duration mv winner) ∈ (fireTimer now st).2 →
     symbolAt st (t_card1 t) = symbolAt st (t_card2 t)
     ∧ S (matchedPairs room) * 2 = length (gameBoard room)
     ∧ target = ToRoom (t_roomId t)
     ∧ sc = score_incr (t_playerId t) (scores room)
     ∧ duration = (now - default 0 (startTime room))%Z
     ∧ mv = moves room)
  ∧ (symbolAt st (t_card1 t) = symbolAt st (t_card2 t) →
     S (matchedPairs room) * 2 = length (gameBoard room) →
     ∃ winner,
       (ToRoom (t_roomId t),
        GameEnded (score_incr (t_playerId t) (scores room))
          (now - default 0%Z (startTime room))%Z (moves room) winner)
       ∈ (fireTimer now st).2).
Proof.
  intros Hp Hroom. unfold fireTimer. rewrite Hp. unfold resolve.
  change (roomObjs (set_pending rest st)) with (roomObjs st). rewrite Hroom.
  change (symbolAt (set_pending rest st)) with (symbolAt st).
  destruct (decide (symbolAt st (t_card1 t) = symbolAt st (t_card2 t)))
    as [Heq|Hne].
  - case_decide as Hend; simpl in *.
    + split.
      * intros target sc duration mv winner Hin. rewrite !elem_of_cons in Hin.
        destruct Hin as [[=] | [[= -> -> -> -> ->] | Hin]];
          [done|by apply elem_of_nil in Hin].
      * intros _ _. eexists. right. left.
    + split.
      * intros target sc duration mv winner Hin. rewrite !elem_of_cons in Hin.
        destruct Hin as [[=] | Hin]. by apply elem_of_nil in Hin.
      * intros _ H. done.
  - simpl. split; [|done].
    intros target sc duration mv winner Hin. rewrite !elem_of_cons in Hin.
    destruct Hin as [[=] | [[=] | Hin]]. by apply elem_of_nil in Hin.
Qed.

Lemma game_ended_report_witness :
  ∃ winner,
    (ToRoom "r", GameEnded [("A", Num 8); ("B", Num 0)] 15900 7 winner)
    ∈ (fireTimer 16000 (run leaderLeaves initialServer)).2.
Proof.
  set (st := run leaderLeaves initialServer).
  destruct (proj2 (game_ended_report (mkTimer 0 "r" 14 15 "A") [] 16000 st
              (default (newRoom "r" noConfig) (roomObjs st !! 0))
              ltac:(vm_compute; reflexivity) ltac:(vm_compute; reflexivity)))
    as [winner Hin].
  - vm_compute. reflexivity.
  - vm_compute. reflexivity.
  - exists winner. exact Hin.
Defined.

(** ** Pause, resume and the clock *)

(** An accepted pause followed by an accepted resume gives the room back as
    it was, except that [startTime] has moved forward by the length of the
    pause (so the time elapsed since [startTime] does not count the pause)
    and that [pausedBy] and [pausedAt] are cleared.  A pause recorded at time
    stamp 0 is not subtracted, the stamp being falsy. *)
Theorem pause_then_resume sid sid' rid t1 t2 st a room i p i' p' :
  getRoom st rid = Some (a, room) →
  gameStarted room = true →
  paused room = false →
  findPlayer sid (players room) = Some (i, p) →
  findPlayer sid' (players room) = Some (i', p') →
  (pauseGame sid rid t1 st).2 = [(ToRoom rid, GamePaused sid (Some (name p)) None)]
  ∧ (resumeGame sid' rid t2 (pauseGame sid rid t1 st).1).2
    = [(ToRoom rid, GameResumed sid' (name p'))]
  ∧ (resumeGame sid' rid t2 (pauseGame sid rid t1 st).1).1
    = set_room a
        (set_pausedAt None
           (set_pausedBy None
              (set_startTime
                 (if decide (t1 = 0%Z) then startTime room
                  else Some (default 0 (startTime room) + (t2 - t1))%Z)
                 room))) st.
Proof.
  intros Hroom Hs Hp Hf Hf'. apply getRoom_Some in Hroom as Hroom'.
  destruct Hroom' as [Hrid Ha].
  assert (a < length (roomObjs st)) as Hlt by (by eapply lookup_lt_Some).
  unfold pauseGame. rewrite Hroom, Hs, Hf, Hp. simpl. split; [done|].
  unfold resumeGame.
  set (room1 := set_pausedAt (Some t1) (set_pausedBy (Some sid) (set_paused true room))).
  assert (getRoom (set_room a room1 st) rid = Some (a, room1)) as ->.
  { apply getRoom_Some. simpl. split; [done|]. by apply list_lookup_insert_eq. }
  subst room1. simpl. rewrite Hs, Hf'. simpl. split; [done|].
  unfold set_room. simpl. rewrite list_insert_insert_eq.
  unfold resumedStart, set_roomObjs. simpl. do 2 f_equal.
  clear -Hp. destruct room. simpl in Hp. by subst.
Qed.

Lemma pause_then_resume_witness :
  ∃ room',
    getRoom (resumeGame "A" "r" 700
               (pauseGame "B" "r" 400 (run twoPlayersStarted initialServer)).1).1
      "r" = Some (0, room')
    ∧ startTime room' = Some 400%Z.
Proof.
  set (st := run twoPlayersStarted initialServer).
  destruct (pause_then_resume "B" "A" "r" 400 700 st 0
              (default (newRoom "r" noConfig) (roomObjs st !! 0))
              1 (mkPlayer "B" "Bob" true) 0 (mkPlayer "A" "Ann" true))
    as (_ & _ & Hst).
  - vm_compute. reflexivity.
  - vm_compute. reflexivity.
  - vm_compute. reflexivity.
  - vm_compute. reflexivity.
  - vm_compute. reflexivity.
  - rewrite Hst. eexists. split; vm_compute; reflexivity.
Defined.

(** ** Leaving and disconnecting *)

(** leave-room for an unknown room, or by a connection that is not listed in
    the room, touches no room and emits nothing, yet clears the reverse
    lookup of the connection.  When a listed player leaves, player-left goes
    to the others and only the player list of the room changes (turn, scores
    and the rest stay); the room stays registered unless the list became
    empty, in which case its id is removed from the registry. *)
Theorem leaveRoom_spec sid rid st :
  ((getRoom st rid = None
    ∨ ∃ a room, getRoom st rid = Some (a, room)
        ∧ findPlayer sid (players room) = None) →
   leaveRoom sid rid st
   = (set_socketPlayers (delete sid (socketPlayers st)) st, []))
  ∧ (∀ a room i p,
       getRoom st rid = Some (a, room) →
       findPlayer sid (players room) = Some (i, p) →
       (leaveRoom sid rid st).2 = [(ToOthers rid sid, PlayerLeft p)]
       ∧ roomObjs (leaveRoom sid rid st).1
         = <[a := set_players (delete i (players room)) room]> (roomObjs st)
       ∧ socketPlayers (leaveRoom sid rid st).1 = delete sid (socketPlayers st)
       ∧ cardObjs (leaveRoom sid rid st).1 = cardObjs st
       ∧ pending (leaveRoom sid rid st).1 = pending st
       ∧ (length (players room) = 1 →
          rooms (leaveRoom sid rid st).1 = delete rid (rooms st)
          ∧ getRoom (leaveRoom sid rid st).1 rid = None)
       ∧ (length (players room) ≠ 1 →
          rooms (leaveRoom sid rid st).1 = rooms st)).
Proof.
  split.
  - unfold leaveRoom. intros [-> | (a & room & -> & ->)]; done.
  - intros a room i p Hroom Hp. unfold leaveRoom. rewrite Hroom, Hp.
    destruct (findPlayer_Some _ _ _ _ Hp) as [Hi _].
    assert (i < length (players room)) as Hlt by (by eapply lookup_lt_Some).
    simpl. rewrite length_delete by eauto.
    case_decide as Hlen; simpl; repeat split; try done; try lia.
    unfold getRoom. simpl. by rewrite lookup_delete_eq.
Qed.

Lemma leaveRoom_spec_witness :
  getRoom (leaveRoom "A" "r" (run [JoinRoom "A" "r" "Ann"] initialServer)).1 "r"
  = None.
Proof.
  set (st := run [JoinRoom "A" "r" "Ann"] initialServer).
  destruct (proj2 (leaveRoom_spec "A" "r" st) 0
              (default (newRoom "r" noConfig) (roomObjs st !! 0))
              0 (mkPlayer "A" "Ann" true))
    as (_ & _ & _ & _ & _ & Hlast & _).
  - vm_compute. reflexivity.
  - vm_compute. reflexivity.
  - apply Hlast. vm_compute. reflexivity.
Defined.

(** leave-room does not move the turn.  When the current index is the last
    one of the list and a listed player leaves a room that keeps at least
    one player, the index points past the end of the list: from then on every
    flip-card request for the room, from anybody, fails with the generic
    error. *)
Theorem leave_on_last_turn_blocks_flips sid rid st a room i p n :
  getRoom st rid = Some (a, room) →
  gameStarted room = true →
  paused room = false →
  findPlayer sid (players room) = Some (i, p) →
  currentPlayer room = Num n →
  length (players room) = S n →
  1 ≤ n →
  ∀ sid' cardId,
    flipCard sid' rid cardId (leaveRoom sid rid st).1
    = ((leaveRoom sid rid st).1,
       [(ToSocket sid', Error "Error processing card flip")]).
Proof.
  intros Hroom Hs Hpa Hp Hcur Hlen Hn sid' cardId.
  destruct (findPlayer_Some _ _ _ _ Hp) as [Hi _].
  assert (i < length (players room)) as Hlt by (by eapply lookup_lt_Some).
  apply getRoom_Some in Hroom as Hroom'. destruct Hroom' as [Hrid Ha].
  assert (getRoom (leaveRoom sid rid st).1 rid
          = Some (a, set_players (delete i (players room)) room)) as Hget.
  { unfold leaveRoom. rewrite Hroom, Hp. simpl.
    rewrite length_delete by eauto. rewrite decide_False by lia.
    apply getRoom_Some. simpl. split; [done|].
    apply list_lookup_insert_eq. by eapply lookup_lt_Some. }
  unfold flipCard. rewrite Hget. simpl. rewrite Hs, Hpa, Hcur. simpl.
  rewrite (lookup_ge_None_2 (delete i (players room)) n); [done|].
  rewrite length_delete by eauto. lia.
Qed.

Lemma leave_on_last_turn_blocks_flips_witness :
  let st := run (twoPlayersStarted ++ turn "A" 0 2 2000) initialServer in
  flipCard "A" "r" 4 (leaveRoom "B" "r" st).1
  = ((leaveRoom "B" "r" st).1, [(ToSocket "A", Error "Error processing card flip")]).
Proof.
  intros st.
  apply (leave_on_last_turn_blocks_flips "B" "r" st 0
           (default (newRoom "r" noConfig) (roomObjs st !! 0))
           1 (mkPlayer "B" "Bob" true) 1).
  - vm_compute. reflexivity.
  - vm_compute. reflexivity.
  - vm_compute. reflexivity.
  - vm_compute. reflexivity.
  - vm_compute. reflexivity.
  - vm_compute. reflexivity.
  - lia.
Defined.

Lemma socketPlayers_leaveRoom sid rid st :
  socketPlayers (leaveRoom sid rid st).1 !! sid = None.
Proof.
  unfold leaveRoom.
  destruct (getRoom st rid) as [[a room]|]; [|simpl; apply lookup_delete_eq].
  destruct (findPlayer sid (players room)) as [[i p]|];
    [|simpl; apply lookup_delete_eq].
  simpl. case_decide; simpl; apply lookup_delete_eq.
Qed.

(** A connection with no reverse lookup entry disconnects without any effect,
    and leave-room always removes that entry, whatever room id it names: a
    disconnect that follows a leave-room of the same connection changes
    nothing and emits nothing, even if the connection is still listed in a
    room. *)
Theorem disconnect_after_leave_is_noop sid rid now now' st :
  (socketPlayers st !! sid = None → disconnect sid now st = (st, []))
  ∧ disconnect sid now (leaveRoom sid rid st).1 = ((leaveRoom sid rid st).1, [])
  ∧ disconnect sid now' (disconnect sid now st).1
    = ((disconnect sid now st).1, []).
Proof.
  assert (∀ s, socketPlayers s !! sid = None → disconnect sid now s = (s, []))
    as Hnone.
  { intros s H. unfold disconnect. by rewrite H. }
  assert (∀ s, socketPlayers s !! sid = None → disconnect sid now' s = (s, []))
    as Hnone'.
  { intros s H. unfold disconnect. by rewrite H. }
  split; [apply Hnone|]. split; [apply Hnone, socketPlayers_leaveRoom|].
  apply Hnone'. unfold disconnect.
  destruct (socketPlayers st !! sid) as [pd|] eqn:Hpd; [|done].
  destruct (getRoom st (roomId pd)) as [[a room]|];
    [|simpl; apply lookup_delete_eq].
  destruct (findPlayer sid (players room)) as [[i p]|];
    [|simpl; apply lookup_delete_eq].
  simpl. case_match; simpl; apply lookup_delete_eq.
Qed.

Lemma disconnect_after_leave_is_noop_witness :
  disconnect "Z" 5 initialServer = (initialServer, []).
Proof.
  apply (proj1 (disconnect_after_leave_is_noop "Z" "r" 5 6 initialServer)).
  vm_compute. reflexivity.
Defined.

(** ** Board generator and start of a game *)

Lemma swap_same {A} (l : list A) i : swap l i i = l.
Proof.
  unfold swap. destruct (l !! i) as [x|] eqn:Hi; [|done].
  by rewrite list_insert_insert_eq, list_insert_id.
Qed.

Lemma shuffleFrom_keepOrder {A} i (l : list A) : shuffleFrom keepOrder i l = l.
Proof.
  induction i as [|i IH]; [done|]. cbn [shuffleFrom]. unfold keepOrder at 2.
  rewrite Nat.mod_small by lia. by rewrite swap_same.
Qed.

(** Whatever the random draws, the Fisher-Yates loop returns a permutation
    of its input, of the same length; with the draws [j = i] it returns the
    input itself. *)
Theorem shuffle_permutes {A} (rnd : nat → nat) (l : list A) :
  shuffle rnd l ≡ₚ l
  ∧ length (shuffle rnd l) = length l
  ∧ shuffle keepOrder l = l.
Proof.
  split; [apply shuffle_Permutation|].
  split; [by rewrite shuffle_Permutation|apply shuffleFrom_keepOrder].
Qed.

Lemma ids_pairs sel k n :
  card_id <$> flat_map (pairOf sel) (seq k n) = seq (k * 2) (n * 2).
Proof.
  revert k. induction n as [|n IH]; intros k; [done|].
  cbn [seq flat_map pairOf app fmap list_fmap card_id Nat.mul Nat.add].
  rewrite Nat.add_1_r. do 2 f_equal. apply (IH (S k)).
Qed.

Lemma pairs_fresh sel k n :
  Forall (λ c, matched c = false ∧ flipped c = false
               ∧ symbol c = sel !! (card_id c / 2))
    (flat_map (pairOf sel) (seq k n)).
Proof.
  revert k. induction n as [|n IH]; intros k; [constructor|].
  cbn [seq flat_map pairOf app].
  constructor; [|constructor; [|apply IH]];
    cbn [matched flipped symbol card_id]; (split; [done|split; [done|]]).
  - by rewrite Nat.div_mul.
  - rewrite Nat.div_add_l by lia.
    replace (1 / 2) with 0 by reflexivity. by rewrite Nat.add_0_r.
Qed.

(** The board installed by [generateGameBoard] refers to new card objects
    only, each once; the cards already in the store are left as they are.
    The ids on the board are [0 .. length - 1], each once, every card is face
    down and unmatched, and the cards with ids [2i] and [2i + 1] carry the
    [i]-th selected symbol. *)
Theorem generated_board_cards rnd a st st' room syms :
  roomObjs st !! a = Some room →
  themeSymbols (theme (config room)) = Some syms →
  generateGameBoard rnd a st = Some st' →
  ∃ room',
    roomObjs st' !! a = Some room'
    ∧ cardObjs st'
      = cardObjs st ++ makeCards (gridSize (config room)) syms
    ∧ NoDup (gameBoard room')
    ∧ Forall (λ c, length (cardObjs st) ≤ c < length (cardObjs st'))
        (gameBoard room')
    ∧ card_id <$> derefCards st' (gameBoard room')
        ≡ₚ seq 0 (length (gameBoard room'))
    ∧ Forall (λ c, matched c = false ∧ flipped c = false
                   ∧ symbol c
                     = take (gridSize (config room) * gridSize (config room) / 2)
                         syms !! (card_id c / 2))
        (derefCards st' (gameBoard room')).
Proof.
  intros Ha Hsyms Hgen.
  destruct (generated_board _ _ _ _ _ _ Ha Hsyms Hgen)
    as (room' & Ha' & Hperm & Hlen).
  apply generateGameBoard_Some in Hgen as (room0 & syms0 & Ha0 & Hs0 & Hst).
  rewrite Ha in Ha0. injection Ha0 as <-.
  rewrite Hsyms in Hs0. injection Hs0 as <-.
  assert (gameBoard room'
          = shuffle rnd (seq (length (cardObjs st))
                           (length (makeCards (gridSize (config room)) syms))))
    as Hboard.
  { rewrite Hst in Ha'. erewrite lookup_set_room in Ha' by exact Ha.
    by injection Ha' as <-. }
  exists room'. split; [done|]. split; [by rewrite Hst|].
  split; [rewrite Hboard, shuffle_Permutation; apply NoDup_seq|].
  split.
  { rewrite Hboard, shuffle_Permutation. apply Forall_forall.
    intros c Hc. apply elem_of_seq in Hc. rewrite Hst. simpl.
    rewrite length_app. lia. }
  split.
  { rewrite Hperm, Hlen. unfold makeCards. rewrite ids_pairs, length_pairs.
    by rewrite Nat.mul_0_l, (Nat.mul_comm 2). }
  rewrite Hperm. apply pairs_fresh.
Qed.

Lemma generated_board_cards_witness :
  let st := run [JoinRoom "A" "r" "Ann"] initialServer in
  ∃ room',
    roomObjs (default st (generateGameBoard keepOrder 0 st)) !! 0 = Some room'
    ∧ NoDup (gameBoard room').
Proof.
  intros st.
  destruct (generated_board_cards keepOrder 0 st
              (default st (generateGameBoard keepOrder 0 st))
              (default (newRoom "r" noConfig) (roomObjs st !! 0)) emojis)
    as (room' & Hr & _ & Hnd & _).
  - vm_compute. reflexivity.
  - vm_compute. reflexivity.
  - vm_compute. reflexivity.
  - exists room'. split; [exact Hr|exact Hnd].
Defined.



(** ** Invariants of the room objects *)

Lemma sanitizeRoomId_allowed raw :
  Forall (λ c, isRoomIdChar c = true) (list_ascii_of_string (sanitizeRoomId raw)).
Proof.
  unfold sanitizeRoomId. rewrite list_ascii_of_string_of_list_ascii.
  apply filter_bool_Forall.
Qed.

Lemma sanitizePlayerName_noAngle raw :
  Forall (λ c, isAngle c = false)
    (list_ascii_of_string (sanitizePlayerName raw)).
Proof.
  unfold sanitizePlayerName. rewrite list_ascii_of_string_of_list_ascii.
  apply trim_Forall. eapply Forall_impl; [apply filter_bool_Forall|].
  intros c Hc. by apply negb_true_iff.
Qed.

Lemma roomsOk_insert st a room room' :
  Forall roomOk (roomObjs st) →
  roomObjs st !! a = Some room →
  (roomOk room → roomOk room') →
  Forall roomOk (<[a := room']> (roomObjs st)).
Proof.
  intros Hall Ha Hok. apply Forall_insert; [done|]. apply Hok.
  by eapply Forall_lookup_1.
Qed.

Ltac split_roomOk H :=
  destruct H as (Hcfg & Hlen & Hid & Hnames & Hps & Hpb & Hpat & Hst).

(** Closes the conjuncts of [roomOk] that are carried over unchanged. *)
Ltac carry_roomOk :=
  unfold validRoomId in *; repeat split; simpl; try tauto; try done.

Lemma joinRoom_roomsOk sid rawRoomId rawName st :
  Forall roomOk (roomObjs st) →
  Forall roomOk (roomObjs (joinRoom sid rawRoomId rawName st).1).
Proof.
  intros Hall. unfold joinRoom.
  set (rid := sanitizeRoomId rawRoomId). set (pname := sanitizePlayerName rawName).
  case_decide as Hvalid; [done|].
  assert (validName pname) as Hname.
  { split; [tauto|apply sanitizePlayerName_noAngle]. }
  assert (validRoomId rid) as Hrid.
  { split; [tauto|apply sanitizeRoomId_allowed]. }
  unfold ensureRoom.
  destruct (decide (is_Some (rooms st !! rid))) as [Hreg|Hreg].
  - unfold addPlayerToRoom.
    destruct (getRoom st rid) as [[a room]|] eqn:Hroom; [|done].
    apply getRoom_Some in Hroom as [_ Ha].
    case_decide as Hfull; [done|].
    match goal with
    | |- context [match ?g with _ => _ end] => destruct g as [[? ?]|]
    end; simpl;
      (eapply roomsOk_insert; [done|exact Ha|]; intros Hok; split_roomOk Hok;
       carry_roomOk;
       [ rewrite Hcfg in Hfull; simpl in Hfull; rewrite length_app; simpl; lia
       | apply Forall_app; split; [done|by constructor] ]).
  - unfold addPlayerToRoom. rewrite getRoom_createRoom.
    rewrite decide_False by (simpl; lia). cbv beta iota zeta.
    match goal with
    | |- context [match ?g with _ => _ end] => destruct g as [[? ?]|]
    end; simpl; rewrite insert_last;
      (apply Forall_app; split; [done|]; constructor; [|constructor];
       repeat split; simpl; try done; try lia; try apply Hrid;
       try (by intros [? ?]); constructor; [exact Hname|constructor]).
Qed.

Lemma makeCards_default_length syms :
  length (makeCards (gridSize defaultConfig) syms) = 16.
Proof. rewrite makeCards_length. reflexivity. Qed.

Lemma startGame_roomsOk sid rid now rnd st :
  Forall roomOk (roomObjs st) →
  Forall roomOk (roomObjs (startGame sid rid now rnd st).1).
Proof.
  intros Hall. unfold startGame.
  destruct (getRoom st rid) as [[a room]|] eqn:Hroom; [|done].
  apply getRoom_Some in Hroom as [_ Ha].
  destruct (findPlayer sid (players room)); [|done].
  destruct (generateGameBoard rnd a st) as [st1|] eqn:Hgen; [|done].
  apply generateGameBoard_Some in Hgen as (room0 & syms & Ha' & Hsym & ->).
  rewrite Ha in Ha'. injection Ha' as <-.
  erewrite lookup_set_room by exact Ha. simpl.
  rewrite list_insert_insert_eq.
  eapply roomsOk_insert; [done|exact Ha|]. intros Hok. split_roomOk Hok.
  carry_roomOk.
  rewrite (shuffle_Permutation rnd), length_seq, Hcfg.
  apply makeCards_default_length.
Qed.

Lemma flipCard_roomsOk sid rid cardId st :
  Forall roomOk (roomObjs st) →
  Forall roomOk (roomObjs (flipCard sid rid cardId st).1).
Proof.
  intros Hall. unfold flipCard.
  destruct (getRoom st rid) as [[a room]|] eqn:Hroom; [|done].
  apply getRoom_Some in Hroom as [_ Ha].
  destruct (gameStarted room); simpl; [|done].
  destruct (paused room); simpl; [done|].
  destruct (playerAt (players room) (currentPlayer room)); [|done].
  case_decide; [done|].
  destruct (findCard (cardObjs st) (gameBoard room) cardId) as [[c card]|];
    [|done].
  destruct (matched card || flipped card); [done|].
  destruct (flippedCards room ++ [c]) as [|c1 [|c2 [|c3 l]]]; simpl;
    (eapply roomsOk_insert; [done|exact Ha|]; intros Hok; split_roomOk Hok;
     carry_roomOk).
Qed.

Lemma fireTimer_roomsOk now st :
  Forall roomOk (roomObjs st) →
  Forall roomOk (roomObjs (fireTimer now st).1).
Proof.
  intros Hall. unfold fireTimer.
  destruct (pending st) as [|t rest]; [done|]. unfold resolve.
  change (roomObjs (set_pending rest st)) with (roomObjs st).
  destruct (roomObjs st !! t_room t) as [room|] eqn:Ha; [|done].
  case_decide; [case_decide|]; simpl; rewrite !roomObjs_updCard; simpl;
    (eapply roomsOk_insert; [done|exact Ha|]; intros Hok; split_roomOk Hok;
     carry_roomOk).
Qed.

Lemma pauseGame_roomsOk sid rid now st :
  Forall roomOk (roomObjs st) →
  Forall roomOk (roomObjs (pauseGame sid rid now st).1).
Proof.
  intros Hall. unfold pauseGame.
  destruct (getRoom st rid) as [[a room]|] eqn:Hroom; [|done].
  apply getRoom_Some in Hroom as [_ Ha].
  destruct (gameStarted room) eqn:Hs; simpl; [|done].
  destruct (findPlayer sid (players room)) as [[i p]|]; [|done].
  destruct (paused room); [done|]. simpl.
  eapply roomsOk_insert; [done|exact Ha|]. intros Hok. split_roomOk Hok.
  carry_roomOk; eauto.
Qed.

Lemma resumeGame_roomsOk sid rid now st :
  Forall roomOk (roomObjs st) →
  Forall roomOk (roomObjs (resumeGame sid rid now st).1).
Proof.
  intros Hall. unfold resumeGame.
  destruct (getRoom st rid) as [[a room]|] eqn:Hroom; [|done].
  apply getRoom_Some in Hroom as [_ Ha].
  destruct (gameStarted room) eqn:Hs; simpl; [|done].
  destruct (findPlayer sid (players room)) as [[i p]|]; [|done].
  destruct (paused room); [|done]. simpl.
  eapply roomsOk_insert; [done|exact Ha|]. intros Hok. split_roomOk Hok.
  carry_roomOk; try (by intros [? ?]).
  destruct Hst as [_ [s Hs']]; [done|]. unfold resumedStart.
  rewrite Hs'. destruct (pausedAt room); [case_decide|]; eauto.
Qed.

Lemma leaveRoom_roomsOk sid rid st :
  Forall roomOk (roomObjs st) →
  Forall roomOk (roomObjs (leaveRoom sid rid st).1).
Proof.
  intros Hall. unfold leaveRoom.
  destruct (getRoom st rid) as [[a room]|] eqn:Hroom; [|done].
  apply getRoom_Some in Hroom as [_ Ha].
  destruct (findPlayer sid (players room)) as [[i p]|] eqn:Hp; [|done].
  apply findPlayer_Some in Hp as [Hi _].
  simpl. case_decide; simpl;
    (eapply roomsOk_insert; [done|exact Ha|]; intros Hok; split_roomOk Hok;
     carry_roomOk;
     [ rewrite length_delete by eauto; lia | by apply Forall_delete ]).
Qed.

Lemma disconnect_roomsOk sid now st :
  Forall roomOk (roomObjs st) →
  Forall roomOk (roomObjs (disconnect sid now st).1).
Proof.
  intros Hall. unfold disconnect.
  destruct (socketPlayers st !! sid) as [pd|]; [|done].
  destruct (getRoom st (roomId pd)) as [[a room]|] eqn:Hroom; [|done].
  apply getRoom_Some in Hroom as [_ Ha].
  destruct (findPlayer sid (players room)) as [[i p]|] eqn:Hp; [|done].
  apply findPlayer_Some in Hp as [Hi _].
  simpl. destruct (gameStarted room) eqn:Hs; destruct (paused room) eqn:Hpa;
    simpl;
    (eapply roomsOk_insert; [done|exact Ha|]; intros Hok; split_roomOk Hok;
     unfold markDisconnected; carry_roomOk; eauto;
     try (by rewrite length_insert);
     try (apply Forall_insert; [done|]; simpl;
          by apply (Forall_lookup_1 _ _ _ _ Hnames Hi))).
Qed.

Lemma handle_roomsOk e st :
  Forall roomOk (roomObjs st) → Forall roomOk (roomObjs (handle e st).1).
Proof.
  destruct e; simpl; eauto using joinRoom_roomsOk, startGame_roomsOk,
    flipCard_roomsOk, fireTimer_roomsOk, pauseGame_roomsOk, resumeGame_roomsOk,
    leaveRoom_roomsOk, disconnect_roomsOk.
Qed.

Lemma reachable_roomsOk st : reachable st → Forall roomOk (roomObjs st).
Proof.
  induction 1 as [|e st _ IH]; [constructor|]. by apply handle_roomsOk.
Qed.

(** In every reachable state a room has the default configuration and at
    most [maxPlayers] (two) players. *)
Theorem rooms_within_capacity st a room :
  reachable st →
  roomObjs st !! a = Some room →
  config room = defaultConfig
  ∧ length (players room) ≤ maxPlayers (config room).
Proof.
  intros Hst Ha.
  destruct (Forall_lookup_1 _ _ _ _ (reachable_roomsOk _ Hst) Ha)
    as (Hcfg & Hlen & _).
  by rewrite Hcfg.
Qed.

Lemma rooms_within_capacity_witness :
  length (players (default (newRoom "r" noConfig)
                     (roomObjs (run twoPlayersStarted initialServer) !! 0)))
  ≤ 2.
Proof.
  apply (rooms_within_capacity (run twoPlayersStarted initialServer) 0).
  - apply reachable_run, reach_init.
  - vm_compute. reflexivity.
Defined.

(** In every reachable state the ids under which rooms are registered are
    not empty and hold only letters, digits, hyphens and underscores, each
    room is registered under its own id, and the names of the listed players
    are not empty and hold no angle bracket. *)
Theorem stored_strings_sanitized st :
  reachable st →
  (∀ rid a, rooms st !! rid = Some a →
     validRoomId rid
     ∧ ∃ room, roomObjs st !! a = Some room ∧ room_id room = rid)
  ∧ (∀ a room p, roomObjs st !! a = Some room → p ∈ players room →
       validName (name p)).
Proof.
  intros Hst. pose proof (reachable_roomsOk _ Hst) as Hok. split.
  - intros rid a Hrid.
    destruct (cons_rooms _ (reachable_consistent _ Hst) _ _ Hrid)
      as (room & Ha & Hid).
    split; [|eauto].
    destruct (Forall_lookup_1 _ _ _ _ Hok Ha) as (_ & _ & Hv & _).
    by rewrite <-Hid.
  - intros a room p Ha Hp.
    destruct (Forall_lookup_1 _ _ _ _ Hok Ha) as (_ & _ & _ & Hnames & _).
    by apply (proj1 (Forall_forall _ _) Hnames).
Qed.

Lemma stored_strings_sanitized_witness :
  validRoomId "lobby"
  ∧ ∃ room, roomObjs (run [JoinRoom "A" "<lobby>" " <b>Ann</b> "] initialServer)
              !! 0 = Some room
            ∧ room_id room = "lobby".
Proof.
  apply (proj1 (stored_strings_sanitized
                  (run [JoinRoom "A" "<lobby>" " <b>Ann</b> "] initialServer)
                  ltac:(apply reachable_run, reach_init))).
  vm_compute. reflexivity.
Defined.

(** In every reachable state a paused room is a started room, and [pausedBy]
    and [pausedAt] are set exactly while the room is paused. *)
Theorem pause_bookkeeping st a room :
  reachable st →
  roomObjs st !! a = Some room →
  (paused room = true → gameStarted room = true)
  ∧ (paused room = true ↔ is_Some (pausedBy room))
  ∧ (paused room = true ↔ is_Some (pausedAt room)).
Proof.
  intros Hst Ha.
  destruct (Forall_lookup_1 _ _ _ _ (reachable_roomsOk _ Hst) Ha)
    as (_ & _ & _ & _ & Hps & Hpb & Hpat & _).
  done.
Qed.

Lemma pause_bookkeeping_witness :
  let room := default (newRoom "r" noConfig)
                (roomObjs (run (twoPlayersStarted ++ [Disconnect "B" 500])
                             initialServer) !! 0) in
  paused room = true ↔ is_Some (pausedBy room).
Proof.
  intros room.
  apply (pause_bookkeeping
           (run (twoPlayersStarted ++ [Disconnect "B" 500]) initialServer) 0).
  - apply reachable_run, reach_init.
  - vm_compute. reflexivity.
Defined.

(** In every reachable state the board of a started room has 16 cards and
    its [startTime] is set. *)
Theorem started_room_has_board st a room :
  reachable st →
  roomObjs st !! a = Some room →
  gameStarted room = true →
  length (gameBoard room) = 16 ∧ is_Some (startTime room).
Proof.
  intros Hst Ha.
  destruct (Forall_lookup_1 _ _ _ _ (reachable_roomsOk _ Hst) Ha)
    as (_ & _ & _ & _ & _ & _ & _ & Hboard).
  done.
Qed.

Lemma started_room_has_board_witness :
  length (gameBoard (default (newRoom "r" noConfig)
                       (roomObjs (run twoPlayersStarted initialServer) !! 0)))
  = 16.
Proof.
  apply (started_room_has_board (run twoPlayersStarted initialServer) 0).
  - apply reachable_run, reach_init.
  - vm_compute. reflexivity.
  - vm_compute. reflexivity.
Defined.

(** ** What no event undoes *)

Lemma listNext_refl {A} (R : A → A → Prop) l : (∀ x, R x x) → listNext R l l.
Proof. intros HR i x Hx. eauto. Qed.

Lemma listNext_trans {A} (R : A → A → Prop) l1 l2 l3 :
  (∀ x y z, R x y → R y z → R x z) →
  listNext R l1 l2 → listNext R l2 l3 → listNext R l1 l3.
Proof.
  intros HR H12 H23 i x Hx.
  destruct (H12 i x Hx) as (y & Hy & Hxy).
  destruct (H23 i y Hy) as (z & Hz & Hyz). eauto.
Qed.

Lemma listNext_insert {A} (R : A → A → Prop) l a x x' :
  (∀ y, R y y) → l !! a = Some x → R x x' → listNext R l (<[a := x']> l).
Proof.
  intros HR Ha Hx i y Hy. destruct (decide (a = i)) as [<- | Hne].
  - exists x'. rewrite list_lookup_insert_eq by (by eapply lookup_lt_Some).
    split; [done|]. by simplify_eq.
  - exists y. by rewrite list_lookup_insert_ne.
Qed.

Lemma listNext_alter {A} (R : A → A → Prop) (f : A → A) l a :
  (∀ y, R y y) → (∀ y, R y (f y)) → listNext R l (alter f a l).
Proof.
  intros HR Hf i y Hy. destruct (decide (a = i)) as [<- | Hne].
  - exists (f y). rewrite list_lookup_alter_eq, Hy. done.
  - exists y. by rewrite list_lookup_alter_ne.
Qed.

Lemma listNext_app {A} (R : A → A → Prop) l k :
  (∀ y, R y y) → listNext R l (l ++ k).
Proof. intros HR i y Hy. exists y. split; [by apply lookup_app_l_Some|done]. Qed.

Lemma roomNext_refl room : roomNext room room.
Proof. by repeat split. Qed.

Lemma roomNext_trans r1 r2 r3 : roomNext r1 r2 → roomNext r2 r3 → roomNext r1 r3.
Proof.
  intros (H1 & H2 & H3 & H4 & H5) (H1' & H2' & H3' & H4' & H5').
  repeat split; [congruence|congruence|tauto|lia|auto].
Qed.

Lemma cardNext_refl card : cardNext card card.
Proof. by repeat split. Qed.

Lemma cardNext_trans c1 c2 c3 : cardNext c1 c2 → cardNext c2 c3 → cardNext c1 c3.
Proof.
  intros (H1 & H2 & H3) (H1' & H2' & H3').
  repeat split; [congruence|congruence|tauto].
Qed.

Lemma storeNext_refl st : storeNext st st.
Proof.
  split; apply listNext_refl; [apply roomNext_refl|apply cardNext_refl].
Qed.

Lemma storeNext_trans st1 st2 st3 :
  storeNext st1 st2 → storeNext st2 st3 → storeNext st1 st3.
Proof.
  intros [Hr Hc] [Hr' Hc']. split.
  - eapply listNext_trans; [apply roomNext_trans|done|done].
  - eapply listNext_trans; [apply cardNext_trans|done|done].
Qed.

(** A room object mutated in place, the card store left alone. *)
Lemma storeNext_room st st' a room room' :
  roomObjs st !! a = Some room →
  roomObjs st' = <[a := room']> (roomObjs st) →
  cardObjs st' = cardObjs st →
  roomNext room room' →
  storeNext st st'.
Proof.
  intros Ha Hobjs Hcards Hnext. split.
  - rewrite Hobjs.
    eapply listNext_insert; [apply roomNext_refl|exact Ha|exact Hnext].
  - rewrite Hcards. apply listNext_refl, cardNext_refl.
Qed.

Ltac room_next :=
  repeat split; simpl; try done; try lia;
  intros k Hk; unfold scoreIds in *; simpl;
  rewrite ?score_keys_set, ?score_incr_keys; auto.

Lemma storeNext_same st st' :
  roomObjs st' = roomObjs st → cardObjs st' = cardObjs st → storeNext st st'.
Proof.
  intros Hr Hc. split; [rewrite Hr|rewrite Hc]; apply listNext_refl;
    [apply roomNext_refl|apply cardNext_refl].
Qed.

Lemma joinRoom_storeNext sid rawRoomId rawName st :
  storeNext st (joinRoom sid rawRoomId rawName st).1.
Proof.
  unfold joinRoom. case_decide; [by apply storeNext_same|]. unfold ensureRoom.
  destruct (decide (is_Some (rooms st !! sanitizeRoomId rawRoomId))).
  - unfold addPlayerToRoom.
    destruct (getRoom st (sanitizeRoomId rawRoomId)) as [[a room]|] eqn:Hroom;
      [|by apply storeNext_same].
    apply getRoom_Some in Hroom as [_ Ha].
    case_decide; [by apply storeNext_same|].
    match goal with
    | |- context [match ?g with _ => _ end] => destruct g as [[? ?]|]
    end; simpl;
      (eapply storeNext_room; [exact Ha|reflexivity|reflexivity|room_next]).
  - unfold addPlayerToRoom. rewrite getRoom_createRoom.
    rewrite decide_False by (simpl; lia). cbv beta iota zeta.
    match goal with
    | |- context [match ?g with _ => _ end] => destruct g as [[? ?]|]
    end; simpl;
      (split; simpl;
       [ rewrite insert_last; apply listNext_app, roomNext_refl
       | apply listNext_refl, cardNext_refl ]).
Qed.

Lemma startGame_storeNext sid rid now rnd st :
  storeNext st (startGame sid rid now rnd st).1.
Proof.
  unfold startGame.
  destruct (getRoom st rid) as [[a room]|] eqn:Hroom; [|by apply storeNext_same].
  apply getRoom_Some in Hroom as [_ Ha].
  destruct (findPlayer sid (players room)); [|by apply storeNext_same].
  destruct (generateGameBoard rnd a st) as [st1|] eqn:Hgen;
    [|by apply storeNext_same].
  apply generateGameBoard_Some in Hgen as (room0 & syms & Ha' & Hsym & ->).
  rewrite Ha in Ha'. injection Ha' as <-.
  erewrite lookup_set_room by exact Ha. split; simpl.
  - rewrite list_insert_insert_eq.
    eapply listNext_insert; [apply roomNext_refl|exact Ha|room_next].
  - apply listNext_app, cardNext_refl.
Qed.

Lemma flipCard_storeNext sid rid cardId st :
  storeNext st (flipCard sid rid cardId st).1.
Proof.
  unfold flipCard.
  destruct (getRoom st rid) as [[a room]|] eqn:Hroom; [|by apply storeNext_same].
  apply getRoom_Some in Hroom as [_ Ha].
  destruct (gameStarted room); simpl; [|by apply storeNext_same].
  destruct (paused room); simpl; [by apply storeNext_same|].
  destruct (playerAt (players room) (currentPlayer room));
    [|by apply storeNext_same].
  case_decide; [by apply storeNext_same|].
  destruct (findCard (cardObjs st) (gameBoard room) cardId) as [[c card]|] eqn:Hc;
    [|by apply storeNext_same].
  destruct (matched card || flipped card); [by apply storeNext_same|].
  destruct (findCard_Some _ _ _ _ _ Hc) as (_ & Hcard & _).
  destruct (flippedCards room ++ [c]) as [|c1 [|c2 [|c3 l]]]; simpl;
    (split; simpl;
     [ eapply listNext_insert; [apply roomNext_refl|exact Ha|room_next]
     | eapply listNext_insert; [apply cardNext_refl|exact Hcard|by repeat split] ]).
Qed.

Lemma fireTimer_storeNext now st : storeNext st (fireTimer now st).1.
Proof.
  unfold fireTimer.
  destruct (pending st) as [|t rest]; [by apply storeNext_same|]. unfold resolve.
  change (roomObjs (set_pending rest st)) with (roomObjs st).
  destruct (roomObjs st !! t_room t) as [room|] eqn:Ha; [|by apply storeNext_same].
  case_decide; [case_decide|]; simpl;
    (split; simpl;
     [ rewrite !roomObjs_updCard;
       eapply listNext_insert; [apply roomNext_refl|exact Ha|room_next]
     | rewrite !cardObjs_updCard;
       eapply listNext_trans; [apply cardNext_trans| |];
       apply listNext_alter; try apply cardNext_refl; intros y; by repeat split ]).
Qed.

Lemma pauseGame_storeNext sid rid now st :
  storeNext st (pauseGame sid rid now st).1.
Proof.
  unfold pauseGame.
  destruct (getRoom st rid) as [[a room]|] eqn:Hroom; [|by apply storeNext_same].
  apply getRoom_Some in Hroom as [_ Ha].
  destruct (gameStarted room); simpl; [|by apply storeNext_same].
  destruct (findPlayer sid (players room)) as [[i p]|]; [|by apply storeNext_same].
  destruct (paused room); [by apply storeNext_same|].
  eapply storeNext_room; [exact Ha|reflexivity|reflexivity|room_next].
Qed.

Lemma resumeGame_storeNext sid rid now st :
  storeNext st (resumeGame sid rid now st).1.
Proof.
  unfold resumeGame.
  destruct (getRoom st rid) as [[a room]|] eqn:Hroom; [|by apply storeNext_same].
  apply getRoom_Some in Hroom as [_ Ha].
  destruct (gameStarted room); simpl; [|by apply storeNext_same].
  destruct (findPlayer sid (players room)) as [[i p]|]; [|by apply storeNext_same].
  destruct (paused room); [|by apply storeNext_same].
  eapply storeNext_room; [exact Ha|reflexivity|reflexivity|room_next].
Qed.

Lemma leaveRoom_storeNext sid rid st : storeNext st (leaveRoom sid rid st).1.
Proof.
  unfold leaveRoom.
  destruct (getRoom st rid) as [[a room]|] eqn:Hroom; [|by apply storeNext_same].
  apply getRoom_Some in Hroom as [_ Ha].
  destruct (findPlayer sid (players room)) as [[i p]|]; [|by apply storeNext_same].
  simpl. case_decide; simpl;
    (eapply storeNext_room; [exact Ha|reflexivity|reflexivity|room_next]).
Qed.

Lemma disconnect_storeNext sid now st : storeNext st (disconnect sid now st).1.
Proof.
  unfold disconnect.
  destruct (socketPlayers st !! sid) as [pd|]; [|by apply storeNext_same].
  destruct (getRoom st (roomId pd)) as [[a room]|] eqn:Hroom;
    [|by apply storeNext_same].
  apply getRoom_Some in Hroom as [_ Ha].
  destruct (findPlayer sid (players room)) as [[i p]|]; [|by apply storeNext_same].
  simpl. destruct (gameStarted room && negb (paused room)); simpl;
    (eapply storeNext_room; [exact Ha|reflexivity|reflexivity|room_next]).
Qed.

Lemma handle_storeNext e st : storeNext st (handle e st).1.
Proof.
  destruct e; simpl; auto using joinRoom_storeNext, startGame_storeNext,
    flipCard_storeNext, fireTimer_storeNext, pauseGame_storeNext,
    resumeGame_storeNext, leaveRoom_storeNext, disconnect_storeNext.
Qed.

Lemma run_storeNext evs st : storeNext st (run evs st).
Proof.
  revert st. induction evs as [|e evs IH]; intros st; [apply storeNext_refl|].
  rewrite run_cons. eapply storeNext_trans; [apply handle_storeNext|apply IH].
Qed.

(** Whatever events follow, a room object stays in the store under the same
    reference with the same id and the same configuration, and a room that
    is started stays started: no handler resets [gameStarted]. *)
Theorem started_is_permanent evs st a room :
  roomObjs st !! a = Some room →
  ∃ room',
    roomObjs (run evs st) !! a = Some room'
    ∧ room_id room' = room_id room
    ∧ config room' = config room
    ∧ (gameStarted room = true → gameStarted room' = true).
Proof.
  intros Ha. destruct (proj1 (run_storeNext evs st) a room Ha)
    as (room' & Ha' & Hid & Hcfg & Hs & _).
  eauto.
Qed.

Lemma started_is_permanent_witness :
  ∃ room',
    roomObjs (run [LeaveRoom "A" "r"; LeaveRoom "B" "r"; JoinRoom "C" "r" "Cid"]
                (run twoPlayersStarted initialServer)) !! 0 = Some room'
    ∧ gameStarted room' = true.
Proof.
  destruct (started_is_permanent
              [LeaveRoom "A" "r"; LeaveRoom "B" "r"; JoinRoom "C" "r" "Cid"]
              (run twoPlayersStarted initialServer) 0
              (default (newRoom "r" noConfig)
                 (roomObjs (run twoPlayersStarted initialServer) !! 0)))
    as (room' & Ha & _ & _ & Hs).
  - vm_compute. reflexivity.
  - exists room'. split; [exact Ha|]. apply Hs. vm_compute. reflexivity.
Defined.

(** Whatever events follow, the count of matched pairs of a room never goes
    down (start-game does not reset it) and no key is ever removed from its
    score table. *)
Theorem matched_pairs_never_decrease evs st a room :
  roomObjs st !! a = Some room →
  ∃ room',
    roomObjs (run evs st) !! a = Some room'
    ∧ matchedPairs room ≤ matchedPairs room'
    ∧ (∀ k, k ∈ scoreIds room → k ∈ scoreIds room').
Proof.
  intros Ha. destruct (proj1 (run_storeNext evs st) a room Ha)
    as (room' & Ha' & _ & _ & _ & Hmp & Hsc).
  eauto.
Qed.

Lemma matched_pairs_never_decrease_witness :
  ∃ room',
    roomObjs (run [StartGame "B" "r" 3000 keepOrder]
                (run (twoPlayersStarted ++ turn "A" 0 1 2000) initialServer))
      !! 0 = Some room'
    ∧ 1 ≤ matchedPairs room'.
Proof.
  destruct (matched_pairs_never_decrease [StartGame "B" "r" 3000 keepOrder]
              (run (twoPlayersStarted ++ turn "A" 0 1 2000) initialServer) 0
              (default (newRoom "r" noConfig)
                 (roomObjs (run (twoPlayersStarted ++ turn "A" 0 1 2000)
                              initialServer) !! 0)))
    as (room' & Ha & Hmp & _).
  - vm_compute. reflexivity.
  - exists room'. split; [exact Ha|]. revert Hmp. vm_compute. done.
Defined.

(** Whatever events follow, a card object stays in the store under the same
    reference with the same id and the same symbol, and a card that is
    matched stays matched. *)
Theorem cards_keep_identity evs st c card :
  cardObjs st !! c = Some card →
  ∃ card',
    cardObjs (run evs st) !! c = Some card'
    ∧ card_id card' = card_id card
    ∧ symbol card' = symbol card
    ∧ (matched card = true → matched card' = true).
Proof.
  intros Hc. destruct (proj2 (run_storeNext evs st) c card Hc)
    as (card' & Hc' & Hid & Hsym & Hm).
  eauto.
Qed.

Lemma cards_keep_identity_witness :
  ∃ card',
    cardObjs (run (turn "A" 0 1 2000 ++ [StartGame "B" "r" 3000 keepOrder])
                (run twoPlayersStarted initialServer)) !! 0 = Some card'
    ∧ matched card' = true.
Proof.
  set (st := run (twoPlayersStarted ++ turn "A" 0 1 2000) initialServer).
  destruct (cards_keep_identity [StartGame "B" "r" 3000 keepOrder] st 0
              (mkCard 0 (Some "🎮") true true))
    as (card' & Hc & _ & _ & Hm).
  - vm_compute. reflexivity.
  - exists card'. split; [|by apply Hm].
    revert Hc. vm_compute. done.
Defined.

(** A join-room request with a usable id and name for a registered room that
    is not full adds the caller at the end of the player list, and answers
    room-joined, listing the players including the caller, to the caller and
    player-joined to the others. *)
Theorem joinRoom_existing sid rawRoomId rawName st a room :
  sanitizeRoomId rawRoomId ≠ "" →
  sanitizePlayerName rawName ≠ "" →
  getRoom st (sanitizeRoomId rawRoomId) = Some (a, room) →
  length (players room) < maxPlayers (config room) →
  (joinRoom sid rawRoomId rawName st).1
  = (addPlayerToRoom (sanitizeRoomId rawRoomId)
       (mkPlayer sid (sanitizePlayerName rawName) true) st).1
  ∧ (joinRoom sid rawRoomId rawName st).2
    = [ (ToSocket sid,
         RoomJoined (sanitizeRoomId rawRoomId) sid
           (players room ++ [mkPlayer sid (sanitizePlayerName rawName) true])
           (config room));
        (ToOthers (sanitizeRoomId rawRoomId) sid,
         PlayerJoined (mkPlayer sid (sanitizePlayerName rawName) true)) ].
Proof.
  intros Hid Hname Hroom Hfree. unfold joinRoom.
  set (rid := sanitizeRoomId rawRoomId) in *.
  set (pname := sanitizePlayerName rawName) in *.
  rewrite decide_False by (by intros [?|?]).
  apply getRoom_Some in Hroom as Hroom'. destruct Hroom' as [Hrid Ha].
  unfold ensureRoom. rewrite decide_True by (rewrite Hrid; eauto).
  unfold addPlayerToRoom. rewrite Hroom.
  rewrite decide_False by lia. cbv beta iota zeta.
  match goal with
  | |- context [getRoom (set_socketPlayers ?m ?s) rid] =>
      assert (getRoom (set_socketPlayers m s) rid
              = Some (a, set_scores
                           (score_set sid (Num 0) (scores room))
                           (set_players
                              (players room ++ [mkPlayer sid pname true])
                              room))) as Hget
  end.
  { apply getRoom_Some. simpl. split; [done|].
    apply list_lookup_insert_eq. by eapply lookup_lt_Some. }
  simpl in Hget |- *. rewrite Hget. done.
Qed.

Lemma joinRoom_existing_witness :
  (joinRoom "B" "r" "Bob" (run [JoinRoom "A" "r" "Ann"] initialServer)).2
  = [ (ToSocket "B",
       RoomJoined "r" "B" [mkPlayer "A" "Ann" true; mkPlayer "B" "Bob" true]
         defaultConfig);
      (ToOthers "r" "B", PlayerJoined (mkPlayer "B" "Bob" true)) ].
Proof.
  apply (proj2 (joinRoom_existing "B" "r" "Bob"
                  (run [JoinRoom "A" "r" "Ann"] initialServer) 0
                  (mkRoom "r" defaultConfig [mkPlayer "A" "Ann" true] []
                     (Num 0) false false None None [("A", Num 0)] 0 None [] 0)
                  ltac:(vm_compute; discriminate)
                  ltac:(vm_compute; discriminate)
                  ltac:(vm_compute; reflexivity)
                  ltac:(vm_compute; lia))).
Defined.
